(** * improc: image helpers of metro-pose3d (src/improc.py)

    A shallow embedding of the helper functions of [src/improc.py] and the
    properties its design note states about them.  Arrays are numpy
    [ndarray]s seen as a shape and an indexing function; the calls into
    OpenCV and the operating system are parameters of the functions that
    use them, and the mask codec is written out as run lengths. *)

From Stdlib Require Import ZArith QArith Qabs Lia List Bool String Sorted.
From stdpp Require Import base option list gmap.

Open Scope Z_scope.

(** ** Arrays *)

Module Nd.

(** A two-dimensional [ndarray] (one element per pixel site).  The shape is
    kept next to the contents because numpy keeps the number of columns of
    an array that has no rows. *)
Record ndarray (T : Type) : Type := NdArray {
  nrows : nat;               (* shape[0] *)
  ncols : nat;               (* shape[1] *)
  item : Z -> Z -> T         (* a[r, c], meaningful for 0 <= r < shape[0], 0 <= c < shape[1] *)
}.
Arguments NdArray {T} _ _ _.
Arguments nrows {T} _.
Arguments ncols {T} _.
Arguments item {T} _ _ _.

Definition in_bounds {T} (a : ndarray T) (r c : Z) : Prop :=
  0 <= r < Z.of_nat (nrows a) /\ 0 <= c < Z.of_nat (ncols a).

(** Equality of two arrays as numpy's [array_equal] sees it. *)
Definition nd_eq {T} (a b : ndarray T) : Prop :=
  nrows a = nrows b /\ ncols a = ncols b /\
  forall r c, in_bounds a r c -> item a r c = item b r c.

(** The rows of an array as lists, to look at small arrays. *)
Definition to_lists {T} (a : ndarray T) : list (list T) :=
  map (fun r => map (fun c => item a (Z.of_nat r) (Z.of_nat c)) (seq 0 (ncols a)))
      (seq 0 (nrows a)).

Definition of_lists {T} (d : T) (w : nat) (rows : list (list T)) : ndarray T :=
  NdArray (length rows) w
    (fun r c => nth (Z.to_nat c) (nth (Z.to_nat r) rows nil) d).

(** [a.copy()] and [a.astype(...)]: a new array with the same shape. *)
Definition nd_map {T U} (f : T -> U) (a : ndarray T) : ndarray U :=
  NdArray (nrows a) (ncols a) (fun r c => f (item a r c)).

(** [np.ones(shape)] and the like. *)
Definition nd_full {T} (h w : nat) (v : T) : ndarray T :=
  NdArray h w (fun _ _ => v).

(** *** Slicing

    [a[start:stop]] on an axis of length [n]: a negative bound counts from
    the end, and both bounds are then clamped to [0, n]. *)
Definition slice_index (n i : Z) : Z :=
  if i <? 0 then Z.max 0 (i + n) else Z.min i n.

(** First index and length of [start:stop] on an axis of length [n]. *)
Definition slice_bounds (n : nat) (start stop : Z) : Z * nat :=
  let s := slice_index (Z.of_nat n) start in
  let e := slice_index (Z.of_nat n) stop in
  (s, Z.to_nat (e - s)).

(** [a[y0:y1, x0:x1]] *)
Definition getslice {T} (a : ndarray T) (y0 y1 x0 x1 : Z) : ndarray T :=
  let '(r0, h) := slice_bounds (nrows a) y0 y1 in
  let '(c0, w) := slice_bounds (ncols a) x0 x1 in
  NdArray h w (fun r c => item a (r0 + r) (c0 + c)).

(** *** Broadcasting

    Two axis lengths are compatible when they are equal or one of them is
    1; the axis of length 1 is then read at index 0 throughout. *)
Definition broadcast_dim (n m : nat) : option nat :=
  if (n =? m)%nat then Some n
  else if (n =? 1)%nat then Some m
  else if (m =? 1)%nat then Some n
  else None.

Definition bidx (n : nat) (i : Z) : Z := if (n =? 1)%nat then 0 else i.

(** An elementwise binary operation; [None] is numpy's ValueError
    "operands could not be broadcast together". *)
Definition nd_map2 {T U V} (f : T -> U -> V) (a : ndarray T) (b : ndarray U)
  : option (ndarray V) :=
  h ← broadcast_dim (nrows a) (nrows b);
  w ← broadcast_dim (ncols a) (ncols b);
  Some (NdArray h w (fun r c =>
          f (item a (bidx (nrows a) r) (bidx (ncols a) c))
            (item b (bidx (nrows b) r) (bidx (ncols b) c)))).

Definition broadcasts_to (n target : nat) : bool :=
  (n =? target)%nat || (n =? 1)%nat.

(** [a[y0:y1, x0:x1] = v], each element of [v] converted by [conv] to the
    element type of [a]; [None] is numpy's ValueError "could not broadcast
    input array". *)
Definition setslice {T V} (conv : V -> T) (a : ndarray T) (y0 y1 x0 x1 : Z)
  (v : ndarray V) : option (ndarray T) :=
  let '(r0, h) := slice_bounds (nrows a) y0 y1 in
  let '(c0, w) := slice_bounds (ncols a) x0 x1 in
  if broadcasts_to (nrows v) h && broadcasts_to (ncols v) w then
    Some (NdArray (nrows a) (ncols a) (fun r c =>
            if (r0 <=? r) && (r <? r0 + Z.of_nat h) &&
               (c0 <=? c) && (c <? c0 + Z.of_nat w)
            then conv (item v (bidx (nrows v) (r - r0)) (bidx (ncols v) (c - c0)))
            else item a r c))
  else None.

End Nd.
Import Nd.

(** ** Numbers as numpy converts them *)

(** The nearest integer to a rational, a tie going to the even one. *)
Definition rint (q : Q) : Z :=
  let n := Qnum q in
  let d := Zpos (Qden q) in
  let f := n / d in
  let r2 := 2 * (n mod d) in
  if r2 <? d then f
  else if d <? r2 then f + 1
  else if Z.even f then f else f + 1.

(** [np.round] on one number rounds half to even. *)
Definition np_round (q : Q) : Z := rint q.

(** [astype(np.int32)] of an integral value: the low 32 bits, signed. *)
Definition astype_int32 (z : Z) : Z := (z + 2 ^ 31) mod 2 ^ 32 - 2 ^ 31.

(** [astype(np.uint8)] of an integer: the low 8 bits. *)
Definition astype_uint8 (z : Z) : Z := z mod 256.

(** [np.clip(x, lo, hi)] is [minimum(maximum(x, lo), hi)]. *)
Definition np_clip (x lo hi : Z) : Z := Z.min (Z.max x lo) hi.

(** ** paste_over *)

(** The arithmetic of one pixel site in [paste_over].  [A] is an element of
    the alpha map, [P] and [D] a pixel of the source and of the destination
    (all its channels), [V] what numpy computes the blend in.  numpy
    stretches the alpha map over the channels inside [mul_src] and
    [mul_dst]. *)
Class BlendOps (A P D V : Type) : Type := {
  alpha_one : A;                (* an element of np.ones(..., dtype=np.float32) *)
  alpha_compl : A -> A;         (* 1 - alpha *)
  mul_src : A -> P -> V;        (* alpha * region_src *)
  mul_dst : A -> D -> V;        (* (1 - alpha) * region_dst *)
  add_val : V -> V -> V;        (* the sum of the two products *)
  store_dst : V -> D;           (* conversion to the dtype of result on assignment *)
  src_to_dst : P -> D           (* conversion of a source pixel stored into result *)
}.

(** [alpha*src + (1-alpha)*dst] at one site. *)
Definition blend `{BlendOps A P D V} (a : A) (s : P) (d : D) : V :=
  add_val (mul_src a s) (mul_dst (alpha_compl a) d).

(** Where the source lands in the destination; index 0 of the numpy pairs
    is x (columns), index 1 is y (rows). *)
Record placement : Type := Placement {
  ideal_start_dst : Z * Z;
  ideal_end_dst : Z * Z;
  start_dst : Z * Z;
  end_dst : Z * Z;
  start_src : Z * Z;
  end_src : Z * Z
}.

Definition place (width_height_src width_height_dst : Z * Z) (center : Q * Q)
  : placement :=
  let center := (astype_int32 (np_round center.1), astype_int32 (np_round center.2)) in
  let ideal_start_dst :=
    (center.1 - width_height_src.1 / 2, center.2 - width_height_src.2 / 2) in
  let ideal_end_dst :=
    (ideal_start_dst.1 + width_height_src.1, ideal_start_dst.2 + width_height_src.2) in
  let start_dst :=
    (np_clip ideal_start_dst.1 0 width_height_dst.1,
     np_clip ideal_start_dst.2 0 width_height_dst.2) in
  let end_dst :=
    (np_clip ideal_end_dst.1 0 width_height_dst.1,
     np_clip ideal_end_dst.2 0 width_height_dst.2) in
  let start_src := (start_dst.1 - ideal_start_dst.1, start_dst.2 - ideal_start_dst.2) in
  let end_src :=
    (width_height_src.1 + (end_dst.1 - ideal_end_dst.1),
     width_height_src.2 + (end_dst.2 - ideal_end_dst.2)) in
  Placement ideal_start_dst ideal_end_dst start_dst end_dst start_src end_src.

(** The placement [paste_over] computes for a source and a destination. *)
Definition place_in {P D} (im_src : ndarray P) (im_dst : ndarray D) (center : Q * Q)
  : placement :=
  place (Z.of_nat (ncols im_src), Z.of_nat (nrows im_src))
        (Z.of_nat (ncols im_dst), Z.of_nat (nrows im_dst)) center.

(** The alpha map in use: the one given, or [np.ones(im_src.shape[:2])]. *)
Definition alpha_map `{BlendOps A P D V} (im_src : ndarray P)
  (alpha : option (ndarray A)) : ndarray A :=
  match alpha with
  | Some a => a
  | None => nd_full (nrows im_src) (ncols im_src) alpha_one
  end.

(** What [paste_over] stores into [result], an array that holds the
    contents of [im_dst]: the lines of the source from the slicing of
    [region_dst] to the assignment. *)
Definition paste_into `{BlendOps A P D V} (im_src : ndarray P) (result : ndarray D)
  (alpha : option (ndarray A)) (center : Q * Q) : option (ndarray D) :=
  let p := place_in im_src result center in
  let region_dst :=
    getslice result (start_dst p).2 (end_dst p).2 (start_dst p).1 (end_dst p).1 in
  let alpha := alpha_map im_src alpha in
  let alpha :=
    getslice alpha (start_src p).2 (end_src p).2 (start_src p).1 (end_src p).1 in
  let region_src :=
    getslice im_src (start_src p).2 (end_src p).2 (start_src p).1 (end_src p).1 in
  t1 ← nd_map2 mul_src alpha region_src;
  t2 ← nd_map2 mul_dst (nd_map alpha_compl alpha) region_dst;
  v ← nd_map2 add_val t1 t2;
  setslice store_dst result
    (start_dst p).2 (end_dst p).2 (start_dst p).1 (end_dst p).1 v.

(** Arrays live in a heap and are passed by reference; [im_dst] is the one
    array [paste_over] may write to.  The source and the alpha map are only
    read, and read before the assignment, so they are passed by value. *)
Definition loc : Type := positive.

(** [im_dst.copy()]: a new array at a location not in use. *)
Definition copy_array {D} (h : gmap loc (ndarray D)) (a : ndarray D)
  : loc * gmap loc (ndarray D) :=
  let l := fresh (dom h) in (l, <[l := a]> h).

(** [paste_over(im_src, im_dst, alpha, center, inplace)] run on a heap:
    the reference it returns and the heap it leaves, or [None] when it
    raises. *)
Definition paste_over `{BlendOps A P D V} (im_src : ndarray P) (im_dst : loc)
  (alpha : option (ndarray A)) (center : Q * Q) (inplace : bool)
  (h : gmap loc (ndarray D)) : option (loc * gmap loc (ndarray D)) :=
  dst ← h !! im_dst;
  let '(result, h1) := if inplace then (im_dst, h) else copy_array h dst in
  res ← h1 !! result;
  res' ← paste_into im_src res alpha center;
  Some (result, <[result := res']> h1).

(** The rows of the array a call of [paste_over] returned, to look at small
    examples. *)
Definition returned_rows {D} (o : option (loc * gmap loc (ndarray D)))
  : option (list (list D)) :=
  '(l, h) ← o; to_lists <$> h !! l.


(** The sites of the destination that the assignment of [paste_over]
    writes: the clamped rectangle. *)
Definition in_region (p : placement) (y x : Z) : bool :=
  ((start_dst p).2 <=? y) && (y <? (end_dst p).2) &&
  ((start_dst p).1 <=? x) && (x <? (end_dst p).1).

(** An alpha map is absent or has the extent of the source. *)
Definition alpha_fits {A P} (im_src : ndarray P) (alpha : option (ndarray A)) : Prop :=
  match alpha with
  | None => True
  | Some a => nrows a = nrows im_src /\ ncols a = ncols im_src
  end.

(** The ideal placement rectangle lies inside the destination. *)
Definition fully_inside {P D} (im_src : ndarray P) (im_dst : ndarray D)
  (center : Q * Q) : Prop :=
  let p := place_in im_src im_dst center in
  0 <= (ideal_start_dst p).1 /\ (ideal_end_dst p).1 <= Z.of_nat (ncols im_dst) /\
  0 <= (ideal_start_dst p).2 /\ (ideal_end_dst p).2 <= Z.of_nat (nrows im_dst).

(** The ideal placement rectangle lies outside the destination: it ends
    before the first column or row, or starts after the last. *)
Definition fully_outside {P D} (im_src : ndarray P) (im_dst : ndarray D)
  (center : Q * Q) : Prop :=
  let p := place_in im_src im_dst center in
  (ideal_end_dst p).1 <= 0 \/ Z.of_nat (ncols im_dst) <= (ideal_start_dst p).1 \/
  (ideal_end_dst p).2 <= 0 \/ Z.of_nat (nrows im_dst) <= (ideal_start_dst p).2.


(** Integer pixels and an integer alpha map, for examples. *)
#[local] Instance BlendZ : BlendOps Z Z Z Z := {|
  alpha_one := 1;
  alpha_compl := fun a => 1 - a;
  mul_src := Z.mul;
  mul_dst := Z.mul;
  add_val := Z.add;
  store_dst := fun v => v;
  src_to_dst := fun s => s
|}.

(** A 3x4 destination, a 2x2 source and a heap that holds the destination
    at location 1, for examples. *)
Definition dst_3x4 : ndarray Z :=
  of_lists 0 4 [[10; 10; 10; 10]; [10; 10; 10; 10]; [10; 10; 10; 10]].

Definition src_2x2 : ndarray Z := of_lists 0 2 [[1; 2]; [3; 4]].

Definition heap_3x4 : gmap loc (ndarray Z) := {[ 1%positive := dst_3x4 ]}.

(** ** Gamma correction *)

(** IEEE 754 binary64 arithmetic on the rationals: every operation returns
    the exact result rounded to the nearest number with a 53-bit
    significand, ties to even.  The exponent range is not modelled: the
    values of this file lie between 2^-9 and 2^8. *)
Module B64.

(** [floor (log2 q)] for [q > 0]. *)
Definition ilog2 (q : Q) : Z :=
  let k := Z.log2 (Qnum q) - Z.log2 (Zpos (Qden q)) in
  if Qle_bool (Qpower 2 k) q then k else k - 1.

Definition round (q : Q) : Q :=
  if Qeq_bool q 0 then 0
  else
    let e := ilog2 (Qabs q) - 52 in
    Qred (inject_Z (rint (q / Qpower 2 e)) * Qpower 2 e).

Definition add (x y : Q) : Q := round (x + y).
Definition sub (x y : Q) : Q := round (x - y).
Definition mul (x y : Q) : Q := round (x * y).
Definition div (x y : Q) : Q := round (x / y).

(** [astype(np.uint8)] of a float: the fraction is dropped, then the low
    8 bits are kept. *)
Definition to_uint8 (x : Q) : Z := astype_uint8 (Z.quot (Qnum x) (Zpos (Qden x))).

End B64.

(** [np.linspace(start, stop, num)] in float64 (endpoint included): the
    step is computed once and multiplied by the index, and the last sample
    is set to [stop]. *)
Definition np_linspace (start stop : Q) (num : nat) : list Q :=
  let div := inject_Z (Z.of_nat (num - 1)) in
  let delta := B64.sub stop start in
  let step := B64.div delta div in
  map (fun i : nat =>
         let y := inject_Z (Z.of_nat i) in
         if (1 <? num)%nat && (i =? num - 1)%nat then stop
         else if (0 <? num - 1)%nat then
           B64.add (if Qeq_bool step 0 then B64.mul (B64.div y div) delta
                    else B64.mul y step) start
         else B64.add (B64.mul y delta) start)
      (seq 0 num).

Section Gamma.

(** [x ** gamma] on float64, the power function of the C library. *)
Variable float_power : Q -> Q -> Q.

(** [get_gamma_lookup_table(gamma)]; the cache in front of it does not
    change what it returns. *)
Definition get_gamma_lookup_table (gamma : Q) : list Z :=
  map (fun x => B64.to_uint8 (B64.mul (float_power x gamma) 255))
      (np_linspace 0 1 256).

(** [cv2.LUT(image, table)] on an 8-bit image: every pixel [v] becomes
    [table[v]]. *)
Definition cv2_LUT (image : ndarray Z) (table : list Z) : ndarray Z :=
  nd_map (fun v => nth (Z.to_nat v) table 0) image.

(** [adjust_gamma(image, gamma)]: the pixels of the array it returns (with
    [inplace] they are also written back into [image]). *)
Definition adjust_gamma (image : ndarray Z) (gamma : Q) : ndarray Z :=
  cv2_LUT image (get_gamma_lookup_table gamma).

End Gamma.

(** A power function that is right at the exponent 1, for examples. *)
Definition power_at_one (x gamma : Q) : Q := x.

(** uint8 images blended with a float64 alpha map: the products and the
    sum are float64, and the assignment into the uint8 [result] drops the
    fraction. *)
Definition BlendU8 : BlendOps Q Z Z Q := {|
  alpha_one := 1%Q;
  alpha_compl := fun a => B64.sub 1 a;
  mul_src := fun a s => B64.mul a (inject_Z s);
  mul_dst := fun a d => B64.mul a (inject_Z d);
  add_val := B64.add;
  store_dst := B64.to_uint8;
  src_to_dst := astype_uint8
|}.

(** One uint8 pixel 21 pasted over one uint8 pixel 10 with alpha 0.5, for
    examples. *)
Definition src_1x1 : ndarray Z := of_lists 0 1 [[21]].
Definition dst_1x1 : ndarray Z := of_lists 0 1 [[10]].
Definition alpha_half : ndarray Q := of_lists 0%Q 1 [[1 # 2]]%Q.
Definition heap_1x1 : gmap loc (ndarray Z) := {[ 1%positive := dst_1x1 ]}.

(** ** Mask encoding *)

Module Rle.

(** A run-length encoded mask: the shape of the mask and the lengths of
    its runs. *)
Record rle : Type := RLE {
  size : nat * nat;            (* height, width *)
  counts : list nat
}.

(** The elements of a Fortran-ordered array in memory order: column after
    column. *)
Definition column {T} (a : ndarray T) (c : nat) : list T :=
  map (fun r => item a (Z.of_nat r) (Z.of_nat c)) (seq 0 (nrows a)).

Definition fortran_order {T} (a : ndarray T) : list T :=
  concat (map (column a) (seq 0 (ncols a))).

(** Modelled from the spec: the run-length mask codec (pycocotools, a
    library the repository calls and does not contain), "compact encoding
    of a binary mask as alternating run lengths": the runs are counted
    over the mask in column-major order and the first run counts zeros.
    The packing of the counts into a byte string is left out. *)
Fixpoint rle_runs (p : Z) (c : nat) (l : list Z) : list nat :=
  match l with
  | [] => [c]
  | x :: l' => if x =? p then rle_runs p (S c) l' else c :: rle_runs x 1 l'
  end.

(** Modelled from the spec: the value of the next run, runs alternating
    between 0 and 1. *)
Definition flip (v : Z) : Z := if v =? 0 then 1 else 0.

(** Modelled from the spec: the runs written out again, the first one with
    the value [v]. *)
Fixpoint rle_expand (v : Z) (cnts : list nat) : list Z :=
  match cnts with
  | [] => []
  | c :: cnts' => repeat v c ++ rle_expand (flip v) cnts'
  end.

(** Modelled from the spec: [pycocotools.mask.encode] of a two-dimensional
    uint8 array in Fortran order. *)
Definition encode (bimask : ndarray Z) : rle :=
  RLE (nrows bimask, ncols bimask) (rle_runs 0 0 (fortran_order bimask)).

(** Modelled from the spec: [pycocotools.mask.decode] of one encoded mask,
    a uint8 array of the recorded shape filled in column-major order. *)
Definition decode (R : rle) : ndarray Z :=
  let h := (size R).1 in
  let flat := rle_expand 0 (counts R) in
  NdArray h (size R).2
    (fun r c => nth (Z.to_nat (c * Z.of_nat h + r)) flat 0).

End Rle.

(** [np.asfortranarray] changes the memory layout, not the elements. *)
Definition np_asfortranarray {T} (a : ndarray T) : ndarray T := a.

Definition encode_mask (mask : ndarray Z) : Rle.rle :=
  Rle.encode (np_asfortranarray (nd_map astype_uint8 mask)).

Definition decode_mask (encoded_mask : Rle.rle) : ndarray Z :=
  Rle.decode encoded_mask.

(** A mask whose elements are all 0 or 1. *)
Definition binary_mask (mask : ndarray Z) : Prop :=
  forall r c, in_bounds mask r c -> item mask r c = 0 \/ item mask r c = 1.

(** ** is_image_readable *)

Inductive exn : Type :=
  | OSError.                   (* FileNotFoundError, PermissionError, ... *)

(** The outcome of a Python call: a value or a raised exception. *)
Inductive outcome (T : Type) : Type :=
  | Return (v : T)
  | Raise (e : exn).
Arguments Return {T} v.
Arguments Raise {T} e.

(** What the operating system does with a command line: the process runs
    and ends with a return code (negative when a signal killed it), or it
    cannot be started. *)
Inductive process_result : Type :=
  | Exited (returncode : Z)
  | NotStarted.

Section Subprocess.

Variable run : list string -> process_result.

(** [subprocess.call(args, ...)] returns the return code; when the program
    cannot be started, [Popen] raises [OSError]. *)
Definition subprocess_call (args : list string) : outcome Z :=
  match run args with
  | Exited returncode => Return returncode
  | NotStarted => Raise OSError
  end.

Definition is_image_readable (path : string) : outcome bool :=
  match subprocess_call ["/usr/bin/identify"%string; path] with
  | Return returncode => Return (returncode =? 0)
  | Raise e => Raise e
  end.

End Subprocess.

(** A machine without [/usr/bin/identify], for examples. *)
Definition no_identify (args : list string) : process_result := NotStarted.

(** ** Connected components *)

(** What [cv2.connectedComponentsWithStats] returns (the centroids, which
    no caller reads, left out). *)
Record components : Type := Components {
  n_labels : Z;
  labels : ndarray Z;
  stats : list (list Z)        (* a row per label: left, top, width, height, area *)
}.

(** [stats[:, -1]]: the last entry of every row. *)
Definition last_column (rows : list (list Z)) : list Z :=
  map (fun row => List.last row 0) rows.

(** [np.squeeze(np.argwhere(bs), axis=-1)]: the indices that hold True. *)
Definition argwhere (bs : list bool) : list Z :=
  map (fun p : nat * bool => Z.of_nat p.1)
      (filter (fun p : nat * bool => p.2) (combine (seq 0 (length bs)) bs)).

(** [mask[labels == i] = 0] *)
Definition clear_label (labels : ndarray Z) (mask : ndarray Z) (i : Z) : ndarray Z :=
  NdArray (nrows mask) (ncols mask)
    (fun r c => if item labels r c =? i then 0 else item mask r c).

Fixpoint argsort_insert (key : Z -> Z) (i : Z) (l : list Z) : list Z :=
  match l with
  | [] => [i]
  | j :: l' => if key i <? key j then i :: l else j :: argsort_insert key i l'
  end.

(** [np.argsort(a)]: the indices in increasing order of their element
    (equal elements in the order of their indices; numpy's default sort
    promises no order among them). *)
Definition np_argsort (a : list Z) : list Z :=
  fold_left (fun acc i => argsort_insert (fun k => nth (Z.to_nat k) a 0) i acc)
            (map Z.of_nat (seq 0 (length a))) [].

Section ConnectedComponents.

(** [cv2.connectedComponentsWithStats(mask, connectivity, cv2.CV_32S)] *)
Variable connectedComponentsWithStats : ndarray Z -> Z -> components.

(** [remove_small_components(mask, min_size, inplace, connectivity)]: the
    pixels of the mask it returns ([inplace] decides only whether this is
    [mask] itself or a copy). *)
Definition remove_small_components (mask : ndarray Z) (min_size : Z)
  (connectivity : Z) : ndarray Z :=
  let out := connectedComponentsWithStats mask connectivity in
  let is_small := map (fun area => area <? min_size) (last_column (stats out)) in
  let ids_small := argwhere is_small in
  fold_left (clear_label (labels out)) ids_small mask.

Definition largest_connected_component (mask : ndarray Z) : ndarray Z * list Z :=
  let mask := nd_map astype_uint8 mask in
  let out := connectedComponentsWithStats mask 4 in
  let areas := last_column (tail (stats out)) in
  if (length areas <? 1)%nat then (mask, [0; 0; 0; 0])
  else
    let largest_area_label := 1 + List.last (np_argsort areas) 0 in
    let obj_mask :=
      nd_map (fun l => if l =? largest_area_label then 1 else 0) (labels out) in
    let obj_box := firstn 4 (nth (Z.to_nat largest_area_label) (stats out) []) in
    (obj_mask, obj_box).

End ConnectedComponents.

(** The sites of an array, row after row. *)
Definition sites {T} (a : ndarray T) : list (Z * Z) :=
  list_prod (map Z.of_nat (seq 0 (nrows a))) (map Z.of_nat (seq 0 (ncols a))).

(** Bounding box and area of a set of sites, as a row of [stats]. *)
Definition box_stats (l : list (Z * Z)) : list Z :=
  match l with
  | [] => [0; 0; 0; 0; 0]
  | (r0, c0) :: _ =>
      let top := fold_right Z.min r0 (map fst l) in
      let bottom := fold_right Z.max r0 (map fst l) in
      let left := fold_right Z.min c0 (map snd l) in
      let right := fold_right Z.max c0 (map snd l) in
      [left; top; right - left + 1; bottom - top + 1; Z.of_nat (length l)]
  end.

(** The labelling of a mask whose foreground is one connected blob (or
    empty): label 0 for the background, label 1 for the blob.  For
    examples. *)
Definition one_blob_components (mask : ndarray Z) (connectivity : Z) : components :=
  let fg := filter (fun s : Z * Z => negb (item mask s.1 s.2 =? 0)) (sites mask) in
  let bg := filter (fun s : Z * Z => item mask s.1 s.2 =? 0) (sites mask) in
  Components (if fg is [] then 1 else 2)
             (nd_map (fun v => if v =? 0 then 0 else 1) mask)
             (box_stats bg :: (if fg is [] then [] else [box_stats fg])).

(** ** resize_by_factor *)

Inductive interpolation : Type :=
  | INTER_LINEAR
  | INTER_AREA
  | INTER_FLAG (flag : Z).     (* any other interpolation the caller names *)

(** [rounded_int_tuple(p)] for a pair. *)
Definition rounded_int_tuple (p : Q * Q) : Z * Z := (np_round p.1, np_round p.2).

Section Resize.

Context {T : Type}.

(** [cv2.resize(src, dsize, fx=, fy=, interpolation=)], [dsize] being
    (width, height). *)
Variable cv2_resize : ndarray T -> Z * Z -> Q -> Q -> interpolation -> ndarray T.

(** [resize_by_factor(im, factor, interp)]; the products with [factor]
    are exact, as they are for an integer factor. *)
Definition resize_by_factor (im : ndarray T) (factor : Q)
  (interp : option interpolation) : ndarray T :=
  let new_size :=
    rounded_int_tuple (inject_Z (Z.of_nat (ncols im)) * factor,
                       inject_Z (Z.of_nat (nrows im)) * factor)%Q in
  let interp :=
    match interp with
    | Some i => i
    | None => if Qlt_le_dec 1 factor then INTER_LINEAR else INTER_AREA
    end in
  cv2_resize im new_size factor factor interp.

End Resize.

(** A nearest-neighbour resize, for examples. *)
Definition nearest_resize {T} (src : ndarray T) (dsize : Z * Z) (fx fy : Q)
  (interp : interpolation) : ndarray T :=
  NdArray (Z.to_nat dsize.2) (Z.to_nat dsize.1)
    (fun r c => item src (r * Z.of_nat (nrows src) / dsize.2)
                         (c * Z.of_nat (ncols src) / dsize.1)).

(** * Properties *)

(** ** The model on small inputs *)

Example slice_negative_start : slice_bounds 5 (-2) 10 = (3, 2%nat).
Proof. reflexivity. Qed.

Example slice_empty_past_end : slice_bounds 2 3 3 = (2, 0%nat).
Proof. reflexivity. Qed.

Example np_round_ties :
  np_round (5 # 2) = 2 /\ np_round (7 # 2) = 4 /\ np_round (-5 # 2) = -2.
Proof. repeat split. Qed.

Example paste_over_inside_rows :
  returned_rows (paste_over src_2x2 1%positive None (2 # 1, 1 # 1)%Q false heap_3x4)
  = Some [[10; 1; 2; 10]; [10; 3; 4; 10]; [10; 10; 10; 10]].
Proof. vm_compute. reflexivity. Qed.

Example paste_over_corner_rows :
  returned_rows (paste_over src_2x2 1%positive None (0 # 1, 0 # 1)%Q true heap_3x4)
  = Some [[4; 10; 10; 10]; [10; 10; 10; 10]; [10; 10; 10; 10]].
Proof. vm_compute. reflexivity. Qed.

Example paste_over_half_alpha_rows :
  returned_rows (paste_over (H := BlendU8) src_1x1 1%positive (Some alpha_half)
                   (0 # 1, 0 # 1)%Q false heap_1x1)
  = Some [[15]].
Proof. vm_compute. reflexivity. Qed.

Example binary64_one_over_255 :
  B64.round (1 # 255) = (282578800148737 # 72057594037927936)%Q.
Proof. vm_compute. reflexivity. Qed.

Example gamma_one_table_start :
  firstn 5 (get_gamma_lookup_table power_at_one 1) = [0; 1; 2; 3; 4].
Proof. vm_compute. reflexivity. Qed.

Example largest_component_of_blob :
  let out := largest_connected_component one_blob_components
               (of_lists 0 3 [[0; 1; 1]; [0; 1; 0]]) in
  to_lists out.1 = [[0; 1; 1]; [0; 1; 0]] /\ out.2 = [1; 0; 2; 2].
Proof. vm_compute. split; reflexivity. Qed.

(** ** is_image_readable *)

(** C6, as the code has it: [is_image_readable] returns [True] exactly when
    the validator exits with code 0 and [False] when it exits with any other
    code; when the validator cannot be started, the [OSError] of
    [subprocess.call] reaches the caller. *)
Theorem is_image_readable_by_returncode (run : list string -> process_result)
  (path : string) :
  match run ["/usr/bin/identify"%string; path] with
  | Exited returncode =>
      is_image_readable run path = Return (returncode =? 0) /\
      (is_image_readable run path = Return true <-> returncode = 0)
  | NotStarted => is_image_readable run path = Raise OSError
  end.
Proof.
  unfold is_image_readable, subprocess_call.
  destruct (run _) as [returncode|]; [|reflexivity].
  split; [reflexivity|].
  split.
  - intros [= Hc]. now apply Z.eqb_eq.
  - intros ->. reflexivity.
Qed.

(** C6, as stated, fails: on a machine where [/usr/bin/identify] cannot be
    started, [is_image_readable] raises instead of returning [False]. *)
Lemma is_image_readable_raises_when_not_started :
  no_identify ["/usr/bin/identify"%string; "a.jpg"%string] = NotStarted /\
  is_image_readable no_identify "a.jpg" = Raise OSError /\
  is_image_readable no_identify "a.jpg" <> Return false.
Proof. repeat split. discriminate. Qed.

(** ** Connected components *)

Lemma filter_combine_all_false (bs : list bool) (ns : list nat) :
  Forall (fun b => b = false) bs ->
  filter (fun p : nat * bool => p.2) (combine ns bs) = [].
Proof.
  intros Hbs. revert ns.
  induction Hbs as [|b bs Hb _ IH]; intros [|n ns]; simpl; try reflexivity.
  subst b. simpl. apply IH.
Qed.

Lemma argwhere_all_false (bs : list bool) :
  Forall (fun b => b = false) bs -> argwhere bs = [].
Proof.
  intros Hbs. unfold argwhere.
  now rewrite filter_combine_all_false.
Qed.

(** C7: with [min_size = 0] no component is small (an area is a number of
    pixels, never below 0), and [remove_small_components] returns the mask
    with every pixel as it was. *)
Theorem remove_small_components_zero
  (connectedComponentsWithStats : ndarray Z -> Z -> components)
  (mask : ndarray Z) (connectivity : Z) :
  (forall area,
      In area (last_column (stats (connectedComponentsWithStats mask connectivity))) ->
      0 <= area) ->
  remove_small_components connectedComponentsWithStats mask 0 connectivity = mask.
Proof.
  intros Hareas. unfold remove_small_components.
  rewrite argwhere_all_false; [reflexivity|].
  apply List.Forall_forall. intros b Hb.
  apply List.in_map_iff in Hb as (area & <- & Hin).
  apply Z.ltb_ge. now apply Hareas.
Qed.

Lemma remove_small_components_zero_witness :
  let mask := of_lists 0 3 [[0; 1; 1]; [0; 1; 0]] in
  to_lists (remove_small_components one_blob_components mask 0 8)
  = [[0; 1; 1]; [0; 1; 0]].
Proof.
  intros mask.
  rewrite (remove_small_components_zero one_blob_components mask 8).
  - reflexivity.
  - intros area Hin. vm_compute in Hin.
    destruct Hin as [<-|[<-|[]]]; lia.
Defined.

(** C8: on a mask with no foreground component (the labelling reports the
    background only) [largest_connected_component] returns the mask cast to
    uint8 and the box (0, 0, 0, 0). *)
Theorem largest_connected_component_no_foreground
  (connectedComponentsWithStats : ndarray Z -> Z -> components)
  (mask : ndarray Z) :
  let out := connectedComponentsWithStats (nd_map astype_uint8 mask) 4 in
  n_labels out = 1 ->
  length (stats out) = Z.to_nat (n_labels out) ->
  largest_connected_component connectedComponentsWithStats mask
  = (nd_map astype_uint8 mask, [0; 0; 0; 0]).
Proof.
  intros out Hn Hlen. unfold largest_connected_component. fold out.
  rewrite Hn in Hlen.
  destruct (stats out) as [|row [|row' rows]]; simpl in *; try reflexivity.
  discriminate.
Qed.

Lemma largest_connected_component_no_foreground_witness :
  let mask := of_lists 0 2 [[0; 256]; [0; 0]] in
  to_lists (largest_connected_component one_blob_components mask).1 = [[0; 0]; [0; 0]] /\
  (largest_connected_component one_blob_components mask).2 = [0; 0; 0; 0].
Proof.
  intros mask.
  rewrite (largest_connected_component_no_foreground one_blob_components mask);
    [split; reflexivity | reflexivity | reflexivity].
Defined.

(** ** resize_by_factor *)

Lemma np_round_inject_Z_mul_1 (z : Z) : np_round (inject_Z z * 1) = z.
Proof.
  unfold np_round, rint. simpl.
  rewrite Z.mul_1_r, Z.div_1_r, Z.mod_1_r. reflexivity.
Qed.

(** With factor 1 and no interpolation named, the call made to OpenCV. *)
Lemma resize_by_factor_one_call {T : Type}
  (cv2_resize : ndarray T -> Z * Z -> Q -> Q -> interpolation -> ndarray T)
  (im : ndarray T) :
  resize_by_factor cv2_resize im 1 None
  = cv2_resize im (Z.of_nat (ncols im), Z.of_nat (nrows im)) 1%Q 1%Q INTER_AREA.
Proof.
  unfold resize_by_factor, rounded_int_tuple. cbn [fst snd].
  rewrite !np_round_inject_Z_mul_1. reflexivity.
Qed.

(** C9: [resize_by_factor(im, 1)] asks OpenCV for an image of the size of
    [im] (width first), and so returns the pixels of [im], OpenCV copying
    an image that is resized to its own size. *)
Theorem resize_by_factor_one {T : Type}
  (cv2_resize : ndarray T -> Z * Z -> Q -> Q -> interpolation -> ndarray T)
  (im : ndarray T) (interp : option interpolation) :
  (forall src fx fy i,
      nd_eq (cv2_resize src (Z.of_nat (ncols src), Z.of_nat (nrows src)) fx fy i) src) ->
  nd_eq (resize_by_factor cv2_resize im 1 interp) im.
Proof.
  intros Hsame. unfold resize_by_factor, rounded_int_tuple. cbn [fst snd].
  rewrite !np_round_inject_Z_mul_1. apply Hsame.
Qed.

Lemma nearest_resize_same_size {T : Type} (src : ndarray T) (fx fy : Q)
  (i : interpolation) :
  nd_eq (nearest_resize src (Z.of_nat (ncols src), Z.of_nat (nrows src)) fx fy i) src.
Proof.
  unfold nearest_resize, nd_eq, in_bounds. cbn.
  rewrite !Nat2Z.id. repeat split.
  intros r c [Hr Hc].
  rewrite !Z.div_mul by lia. reflexivity.
Qed.

Lemma resize_by_factor_one_witness :
  nd_eq (resize_by_factor nearest_resize (of_lists 0 2 [[1; 2]; [3; 4]; [5; 6]]) 1 None)
        (of_lists 0 2 [[1; 2]; [3; 4]; [5; 6]]).
Proof.
  apply (resize_by_factor_one nearest_resize).
  intros src fx fy i. apply nearest_resize_same_size.
Defined.

(** ** Gamma correction *)

(** C4 fails on the code: the table of [get_gamma_lookup_table(1)] holds 32
    at index 33 (float64 gives 33 * (1/255) * 255 = 32.99999999999999, and
    astype(np.uint8) drops the fraction), so [adjust_gamma(image, 1)] turns
    a pixel 33 into 32. *)
Theorem gamma_one_maps_33_to_32 (float_power : Q -> Q -> Q) :
  (forall x, float_power x 1%Q = x) ->
  nth 33 (get_gamma_lookup_table float_power 1) 0 = 32 /\
  to_lists (adjust_gamma float_power (of_lists 0 1 [[33]]) 1) = [[32]].
Proof.
  intros Hpow.
  assert (Htable : get_gamma_lookup_table float_power 1
                   = get_gamma_lookup_table power_at_one 1).
  { unfold get_gamma_lookup_table. apply List.map_ext. intros x.
    now rewrite Hpow. }
  unfold adjust_gamma. rewrite Htable.
  split; vm_compute; reflexivity.
Qed.

Lemma gamma_one_maps_33_to_32_witness :
  nth 33 (get_gamma_lookup_table power_at_one 1) 0 = 32 /\
  to_lists (adjust_gamma power_at_one (of_lists 0 1 [[33]]) 1) = [[32]].
Proof.
  apply (gamma_one_maps_33_to_32 power_at_one). intros x. reflexivity.
Defined.

(** ** Mask encoding *)

Lemma nth_map_seq {T : Type} (f : nat -> T) (d : T) (n i : nat) :
  (i < n)%nat -> nth i (map f (seq 0 n)) d = f i.
Proof.
  intros Hi.
  rewrite (List.nth_indep _ d (f 0%nat)) by (now rewrite length_map, length_seq).
  rewrite List.map_nth, List.seq_nth by assumption. reflexivity.
Qed.

Lemma nth_concat_uniform {T : Type} (d : T) (h : nat) (ls : list (list T)) :
  Forall (fun l => length l = h) ls ->
  forall j i, (i < h)%nat -> (j < length ls)%nat ->
  nth (j * h + i) (concat ls) d = nth i (nth j ls []) d.
Proof.
  induction 1 as [|l ls Hl _ IH]; intros j i Hi Hj; simpl in Hj; [lia|].
  destruct j as [|j]; simpl.
  - rewrite List.app_nth1 by lia. reflexivity.
  - rewrite List.app_nth2 by lia.
    replace (h + j * h + i - length l)%nat with (j * h + i)%nat by lia.
    apply IH; lia.
Qed.

Lemma fortran_order_nth {T : Type} (d : T) (a : ndarray T) (r c : Z) :
  in_bounds a r c ->
  nth (Z.to_nat (c * Z.of_nat (nrows a) + r)) (Rle.fortran_order a) d = item a r c.
Proof.
  intros [Hr Hc]. unfold Rle.fortran_order.
  replace (Z.to_nat (c * Z.of_nat (nrows a) + r))
    with (Z.to_nat c * nrows a + Z.to_nat r)%nat by nia.
  rewrite (nth_concat_uniform d (nrows a)).
  - rewrite nth_map_seq by lia. unfold Rle.column.
    rewrite nth_map_seq by lia. now rewrite !Z2Nat.id by lia.
  - apply List.Forall_forall. intros l Hl.
    apply List.in_map_iff in Hl as (j & <- & _).
    unfold Rle.column. now rewrite length_map, length_seq.
  - lia.
  - rewrite length_map, length_seq. lia.
Qed.

Lemma fortran_order_Forall {T : Type} (Q : T -> Prop) (a : ndarray T) :
  (forall r c, in_bounds a r c -> Q (item a r c)) ->
  Forall Q (Rle.fortran_order a).
Proof.
  intros HQ. unfold Rle.fortran_order.
  apply List.Forall_forall. intros x Hx.
  apply List.in_concat in Hx as (l & Hl & Hx).
  apply List.in_map_iff in Hl as (c & <- & Hc).
  unfold Rle.column in Hx.
  apply List.in_map_iff in Hx as (r & <- & Hr).
  apply List.in_seq in Hc, Hr. apply HQ. unfold in_bounds. lia.
Qed.

(** Expanding the runs of a list of zeros and ones gives the list back,
    after the run that was being counted. *)
Lemma rle_expand_runs (l : list Z) :
  Forall (fun x => x = 0 \/ x = 1) l ->
  forall (p : Z) (c : nat), p = 0 \/ p = 1 ->
  Rle.rle_expand p (Rle.rle_runs p c l) = repeat p c ++ l.
Proof.
  induction 1 as [|x l Hx _ IH]; intros p c Hp; simpl.
  - reflexivity.
  - destruct (Z.eqb_spec x p) as [->|Hne].
    + rewrite IH by assumption.
      replace (repeat p c ++ p :: l) with ((repeat p c ++ [p]) ++ l)
        by (now rewrite <- List.app_assoc).
      rewrite <- List.repeat_cons. reflexivity.
    + simpl. replace (Rle.flip p) with x
        by (unfold Rle.flip; destruct Hx, Hp; subst; try reflexivity; lia).
      rewrite IH by assumption. reflexivity.
Qed.

(** C5: for a mask of zeros and ones, decoding the encoded mask gives the
    mask back, pixel for pixel. *)
Theorem decode_encode_mask (mask : ndarray Z) :
  binary_mask mask -> nd_eq (decode_mask (encode_mask mask)) mask.
Proof.
  intros Hbin.
  assert (Hu8 : forall r c, in_bounds mask r c ->
                  item (nd_map astype_uint8 mask) r c = item mask r c).
  { intros r c Hrc. simpl. unfold astype_uint8.
    destruct (Hbin r c Hrc) as [-> | ->]; reflexivity. }
  unfold decode_mask, encode_mask, np_asfortranarray, Rle.decode, Rle.encode, nd_eq.
  cbn [Rle.size Rle.counts fst snd nrows ncols item nd_map].
  repeat split. intros r c Hrc.
  rewrite rle_expand_runs.
  - simpl. rewrite (fortran_order_nth 0 (nd_map astype_uint8 mask)) by exact Hrc.
    now apply Hu8.
  - apply fortran_order_Forall. intros r' c' Hrc'.
    rewrite Hu8 by exact Hrc'. now apply Hbin.
  - now left.
Qed.

Lemma decode_encode_mask_witness :
  Rle.counts (encode_mask (of_lists 0 3 [[0; 1; 1]; [1; 1; 0]])) = [1; 4; 1]%nat /\
  nd_eq (decode_mask (encode_mask (of_lists 0 3 [[0; 1; 1]; [1; 1; 0]])))
        (of_lists 0 3 [[0; 1; 1]; [1; 1; 0]]).
Proof.
  split; [reflexivity|].
  apply decode_encode_mask.
  intros r c [Hr Hc]. simpl in Hr, Hc.
  assert (Hcases : (r = 0 \/ r = 1) /\ (c = 0 \/ c = 1 \/ c = 2)) by lia.
  destruct Hcases as [[-> | ->] [-> | [-> | ->]]]; simpl; auto.
Defined.

(** ** paste_over *)

Lemma bidx_in_range (n : nat) (i : Z) : 0 <= i < Z.of_nat n -> bidx n i = i.
Proof. unfold bidx. destruct (Nat.eqb_spec n 1); lia. Qed.

Lemma nd_map2_same_shape {T U W : Type} (f : T -> U -> W)
  (a : ndarray T) (b : ndarray U) :
  nrows a = nrows b -> ncols a = ncols b ->
  exists r, nd_map2 f a b = Some r /\
    nrows r = nrows a /\ ncols r = ncols a /\
    forall i j, in_bounds a i j -> item r i j = f (item a i j) (item b i j).
Proof.
  intros Hr Hc. unfold nd_map2, broadcast_dim.
  rewrite <- Hr, <- Hc, !Nat.eqb_refl. simpl.
  eexists. repeat split.
  intros i j [Hi Hj]. simpl. rewrite !bidx_in_range by lia. reflexivity.
Qed.

Lemma setslice_same_shape {T W : Type} (conv : W -> T) (a : ndarray T)
  (y0 y1 x0 x1 : Z) (v : ndarray W) (r0 c0 : Z) (h w : nat) :
  slice_bounds (nrows a) y0 y1 = (r0, h) ->
  slice_bounds (ncols a) x0 x1 = (c0, w) ->
  nrows v = h -> ncols v = w ->
  exists r, setslice conv a y0 y1 x0 x1 v = Some r /\
    nrows r = nrows a /\ ncols r = ncols a /\
    forall i j,
      item r i j =
        if (r0 <=? i) && (i <? r0 + Z.of_nat h) &&
           (c0 <=? j) && (j <? c0 + Z.of_nat w)
        then conv (item v (i - r0) (j - c0)) else item a i j.
Proof.
  intros Hy Hx Hh Hw. unfold setslice, broadcasts_to. rewrite Hy, Hx, Hh, Hw.
  rewrite !Nat.eqb_refl. simpl.
  eexists. repeat split.
  intros i j. simpl.
  destruct (r0 <=? i) eqn:E1, (i <? r0 + Z.of_nat h) eqn:E2,
           (c0 <=? j) eqn:E3, (j <? c0 + Z.of_nat w) eqn:E4; simpl; try reflexivity.
  rewrite !bidx_in_range by lia. reflexivity.
Qed.

Lemma getslice_eq {T : Type} (a : ndarray T) (y0 y1 x0 x1 : Z)
  (r0 c0 : Z) (h w : nat) :
  slice_bounds (nrows a) y0 y1 = (r0, h) ->
  slice_bounds (ncols a) x0 x1 = (c0, w) ->
  getslice a y0 y1 x0 x1 = NdArray h w (fun r c => item a (r0 + r) (c0 + c)).
Proof. intros Hy Hx. unfold getslice. now rewrite Hy, Hx. Qed.

(** One axis of the placement: the clamped bounds select, in the
    destination, the run of indices from the clamped start to the clamped
    end. *)
Lemma axis_dst_slice (n_dst : nat) (i0 i1 : Z) :
  i0 <= i1 ->
  let s := np_clip i0 0 (Z.of_nat n_dst) in
  let e := np_clip i1 0 (Z.of_nat n_dst) in
  slice_bounds n_dst s e = (s, Z.to_nat (e - s)) /\ 0 <= s <= e /\ e <= Z.of_nat n_dst.
Proof.
  intros Hle s e. subst s e. unfold slice_bounds, slice_index, np_clip.
  repeat match goal with |- context [?a <? ?b] => destruct (Z.ltb_spec a b) end;
    split; try (f_equal; lia); lia.
Qed.

(** The same axis in the source: the slice has the length of the
    destination's, and starts at the offset of the clamped start when it is
    not empty. *)
Lemma axis_src_slice (n_src n_dst : nat) (i0 : Z) :
  let i1 := i0 + Z.of_nat n_src in
  let s := np_clip i0 0 (Z.of_nat n_dst) in
  let e := np_clip i1 0 (Z.of_nat n_dst) in
  exists k,
    slice_bounds n_src (s - i0) (Z.of_nat n_src + (e - i1)) = (k, Z.to_nat (e - s)) /\
    (s < e -> k = s - i0).
Proof.
  intros i1 s e. subst i1 s e.
  exists (slice_index (Z.of_nat n_src) (np_clip i0 0 (Z.of_nat n_dst) - i0)).
  unfold slice_bounds, slice_index, np_clip.
  repeat match goal with |- context [?a <? ?b] => destruct (Z.ltb_spec a b) end;
    split; try (f_equal; lia); lia.
Qed.

(** The slices of [paste_over] for a source and a destination: both
    select as many rows and columns, and where that is not nothing the
    source slice starts at the offset of the clamped start. *)
Lemma place_slices {P D : Type} (im_src : ndarray P) (im_dst : ndarray D)
  (center : Q * Q) :
  let p := place_in im_src im_dst center in
  let h := Z.to_nat ((end_dst p).2 - (start_dst p).2) in
  let w := Z.to_nat ((end_dst p).1 - (start_dst p).1) in
  exists ky kx,
    slice_bounds (nrows im_dst) (start_dst p).2 (end_dst p).2 = ((start_dst p).2, h) /\
    slice_bounds (ncols im_dst) (start_dst p).1 (end_dst p).1 = ((start_dst p).1, w) /\
    slice_bounds (nrows im_src) (start_src p).2 (end_src p).2 = (ky, h) /\
    slice_bounds (ncols im_src) (start_src p).1 (end_src p).1 = (kx, w) /\
    ((start_dst p).2 < (end_dst p).2 -> ky = (start_dst p).2 - (ideal_start_dst p).2) /\
    ((start_dst p).1 < (end_dst p).1 -> kx = (start_dst p).1 - (ideal_start_dst p).1) /\
    0 <= (start_dst p).2 <= (end_dst p).2 /\
    0 <= (start_dst p).1 <= (end_dst p).1.
Proof.
  intros p h w. subst h w.
  set (isx := (ideal_start_dst p).1). set (isy := (ideal_start_dst p).2).
  destruct (axis_dst_slice (ncols im_dst) isx (isx + Z.of_nat (ncols im_src))
              ltac:(lia)) as (Hdx & Hx1 & Hx2).
  destruct (axis_dst_slice (nrows im_dst) isy (isy + Z.of_nat (nrows im_src))
              ltac:(lia)) as (Hdy & Hy1 & Hy2).
  destruct (axis_src_slice (ncols im_src) (ncols im_dst) isx) as (kx & Hsx & Hkx).
  destruct (axis_src_slice (nrows im_src) (nrows im_dst) isy) as (ky & Hsy & Hky).
  cbv zeta in Hdx, Hx1, Hx2, Hdy, Hy1, Hy2, Hsx, Hkx, Hsy, Hky.
  exists ky, kx. repeat split; assumption || apply Hx1 || apply Hy1.
Qed.

Lemma alpha_map_shape `{BlendOps A P D V} (im_src : ndarray P)
  (alpha : option (ndarray A)) :
  alpha_fits im_src alpha ->
  nrows (alpha_map im_src alpha) = nrows im_src /\
  ncols (alpha_map im_src alpha) = ncols im_src.
Proof. destruct alpha as [a|]; simpl; auto. Qed.

(** What the assignment of [paste_over] leaves in [result]: the blend at
    the sites of the clamped rectangle, the old contents elsewhere. *)
Lemma paste_into_spec `{BlendOps A P D V} (im_src : ndarray P) (result : ndarray D)
  (alpha : option (ndarray A)) (center : Q * Q) :
  alpha_fits im_src alpha ->
  let p := place_in im_src result center in
  exists r, paste_into im_src result alpha center = Some r /\
    nrows r = nrows result /\ ncols r = ncols result /\
    forall y x,
      item r y x =
        if in_region p y x then
          store_dst
            (blend (item (alpha_map im_src alpha)
                         (y - (ideal_start_dst p).2) (x - (ideal_start_dst p).1))
                   (item im_src (y - (ideal_start_dst p).2) (x - (ideal_start_dst p).1))
                   (item result y x))
        else item result y x.
Proof.
  intros Hfit p.
  destruct (alpha_map_shape im_src alpha Hfit) as [Har Hac].
  destruct (place_slices im_src result center)
    as (ky & kx & Hdy & Hdx & Hsy & Hsx & Hky & Hkx & Hy1 & Hx1).
  fold p in Hdy, Hdx, Hsy, Hsx, Hky, Hkx, Hy1, Hx1.
  set (isx := (ideal_start_dst p).1) in *. set (isy := (ideal_start_dst p).2) in *.
  unfold paste_into. cbv zeta. fold p.
  rewrite (getslice_eq result _ _ _ _ _ _ _ _ Hdy Hdx).
  rewrite (getslice_eq im_src _ _ _ _ _ _ _ _ Hsy Hsx).
  rewrite <- Hac in Hsx. rewrite <- Har in Hsy.
  rewrite (getslice_eq (alpha_map im_src alpha) _ _ _ _ _ _ _ _ Hsy Hsx).
  match goal with |- context [nd_map2 mul_src ?a ?b] =>
    destruct (nd_map2_same_shape mul_src a b eq_refl eq_refl)
      as (t1 & Et1 & Ht1r & Ht1c & Ht1)
  end.
  rewrite Et1. cbn [mbind option_bind].
  match goal with |- context [nd_map2 mul_dst ?a ?b] =>
    destruct (nd_map2_same_shape mul_dst a b eq_refl eq_refl)
      as (t2 & Et2 & Ht2r & Ht2c & Ht2)
  end.
  rewrite Et2. cbn [mbind option_bind].
  cbn [nrows ncols nd_map] in Ht1r, Ht1c, Ht2r, Ht2c.
  destruct (nd_map2_same_shape add_val t1 t2
              (eq_trans Ht1r (eq_sym Ht2r)) (eq_trans Ht1c (eq_sym Ht2c)))
    as (v & Ev & Hvr & Hvc & Hv).
  rewrite Ev. cbn [mbind option_bind].
  destruct (setslice_same_shape store_dst result _ _ _ _ v _ _ _ _ Hdy Hdx
              (eq_trans Hvr Ht1r) (eq_trans Hvc Ht1c))
    as (r & Er & Hrr & Hrc & Hr).
  exists r. split; [exact Er|]. split; [exact Hrr|]. split; [exact Hrc|].
  intros y x. rewrite Hr. unfold in_region.
  rewrite !Z2Nat.id by lia.
  replace ((start_dst p).2 + ((end_dst p).2 - (start_dst p).2)) with ((end_dst p).2) by lia.
  replace ((start_dst p).1 + ((end_dst p).1 - (start_dst p).1)) with ((end_dst p).1) by lia.
  destruct ((start_dst p).2 <=? y) eqn:E1, (y <? (end_dst p).2) eqn:E2,
           ((start_dst p).1 <=? x) eqn:E3, (x <? (end_dst p).1) eqn:E4;
    cbn [andb]; try reflexivity.
  assert (Hin : in_bounds t1 (y - (start_dst p).2) (x - (start_dst p).1))
    by (unfold in_bounds; rewrite Ht1r, Ht1c; lia).
  rewrite Hv by exact Hin.
  rewrite Ht1 by (unfold in_bounds in *; cbn [nrows ncols]; lia).
  rewrite Ht2 by (unfold in_bounds in *; cbn [nrows ncols nd_map]; lia).
  cbn [item nd_map]. rewrite Hkx, Hky by lia. unfold blend.
  replace ((start_dst p).2 - isy + (y - (start_dst p).2)) with (y - isy) by lia.
  replace ((start_dst p).1 - isx + (x - (start_dst p).1)) with (x - isx) by lia.
  replace ((start_dst p).2 + (y - (start_dst p).2)) with y by lia.
  replace ((start_dst p).1 + (x - (start_dst p).1)) with x by lia.
  reflexivity.
Qed.


(** [paste_over] on a heap: the assignment is made into [im_dst] itself or
    into a new array that starts as its copy. *)
Lemma paste_over_run `{BlendOps A P D V} (im_src : ndarray P) (im_dst : loc)
  (alpha : option (ndarray A)) (center : Q * Q) (inplace : bool)
  (h : gmap loc (ndarray D)) (dst : ndarray D) :
  h !! im_dst = Some dst ->
  paste_over im_src im_dst alpha center inplace h =
    r ← paste_into im_src dst alpha center;
    Some (if inplace then (im_dst, <[im_dst := r]> h)
          else (fresh (dom h), <[fresh (dom h) := r]> h)).
Proof.
  intros Hdst. unfold paste_over. rewrite Hdst. cbn [mbind option_bind].
  destruct inplace.
  - rewrite Hdst. reflexivity.
  - unfold copy_array. rewrite lookup_insert_eq. cbn [mbind option_bind].
    destruct (paste_into im_src dst alpha center) as [r|]; [|reflexivity].
    cbn [mbind option_bind]. now rewrite insert_insert_eq.
Qed.

Lemma fresh_not_allocated {D : Type} (h : gmap loc (ndarray D)) :
  h !! fresh (dom h) = None.
Proof. apply not_elem_of_dom. apply is_fresh. Qed.

(** The array [paste_over] returns, whichever way [inplace] is set. *)
Lemma paste_over_returns `{BlendOps A P D V} (im_src : ndarray P) (im_dst : loc)
  (alpha : option (ndarray A)) (center : Q * Q) (inplace : bool)
  (h : gmap loc (ndarray D)) (dst r : ndarray D) :
  h !! im_dst = Some dst ->
  paste_into im_src dst alpha center = Some r ->
  exists l h', paste_over im_src im_dst alpha center inplace h = Some (l, h') /\
    h' !! l = Some r.
Proof.
  intros Hdst Hr. rewrite (paste_over_run _ _ _ _ _ _ _ Hdst), Hr.
  cbn [mbind option_bind].
  destruct inplace; eexists _, _; (split; [reflexivity|]); apply lookup_insert_eq.
Qed.

(** Writes the bounds of the placement [p] of [im_src] in [im_dst] as the
    sums and [np_clip]s of the ideal start [(isx, isy)] that they are. *)
Ltac clamped_bounds p im_src im_dst isx isy :=
  change ((ideal_end_dst p).1) with (isx + Z.of_nat (ncols im_src));
  change ((ideal_end_dst p).2) with (isy + Z.of_nat (nrows im_src));
  change ((start_dst p).1) with (np_clip isx 0 (Z.of_nat (ncols im_dst)));
  change ((start_dst p).2) with (np_clip isy 0 (Z.of_nat (nrows im_dst)));
  change ((end_dst p).1)
    with (np_clip (isx + Z.of_nat (ncols im_src)) 0 (Z.of_nat (ncols im_dst)));
  change ((end_dst p).2)
    with (np_clip (isy + Z.of_nat (nrows im_src)) 0 (Z.of_nat (nrows im_dst))).

(** A site the assignment writes lies in the ideal rectangle, so that the
    source has a pixel for it. *)
Lemma in_region_ideal {P D : Type} (im_src : ndarray P) (im_dst : ndarray D)
  (center : Q * Q) (y x : Z) :
  let p := place_in im_src im_dst center in
  in_region p y x = true ->
  (ideal_start_dst p).2 <= y < (ideal_end_dst p).2 /\
  (ideal_start_dst p).1 <= x < (ideal_end_dst p).1 /\
  in_bounds im_src (y - (ideal_start_dst p).2) (x - (ideal_start_dst p).1) /\
  in_bounds im_dst y x.
Proof.
  intros p. unfold in_region, in_bounds.
  set (isx := (ideal_start_dst p).1). set (isy := (ideal_start_dst p).2).
  clamped_bounds p im_src im_dst isx isy.
  unfold np_clip. rewrite !andb_true_iff. lia.
Qed.

(** Inside the destination nothing is clamped: the assignment writes the
    ideal rectangle. *)
Lemma in_region_fully_inside {P D : Type} (im_src : ndarray P) (im_dst : ndarray D)
  (center : Q * Q) (y x : Z) :
  let p := place_in im_src im_dst center in
  fully_inside im_src im_dst center ->
  (in_region p y x = true <->
   (ideal_start_dst p).2 <= y < (ideal_end_dst p).2 /\
   (ideal_start_dst p).1 <= x < (ideal_end_dst p).1).
Proof.
  intros p. unfold fully_inside, in_region. fold p.
  set (isx := (ideal_start_dst p).1). set (isy := (ideal_start_dst p).2).
  clamped_bounds p im_src im_dst isx isy.
  unfold np_clip. rewrite !andb_true_iff. lia.
Qed.

(** Outside the destination the clamped rectangle is empty. *)
Lemma in_region_fully_outside {P D : Type} (im_src : ndarray P) (im_dst : ndarray D)
  (center : Q * Q) (y x : Z) :
  fully_outside im_src im_dst center ->
  in_region (place_in im_src im_dst center) y x = false.
Proof.
  unfold fully_outside. set (p := place_in im_src im_dst center).
  intros Hout. apply not_true_is_false. intros Hin.
  apply in_region_ideal in Hin. fold p in Hin.
  unfold in_bounds in Hin.
  change ((ideal_end_dst p).1)
    with ((ideal_start_dst p).1 + Z.of_nat (ncols im_src)) in *.
  change ((ideal_end_dst p).2)
    with ((ideal_start_dst p).2 + Z.of_nat (nrows im_src)) in *.
  lia.
Qed.

(** C1, as the code has it: with the source placed fully inside the
    destination, [paste_over] returns an image of the destination's shape
    whose pixels in the placed rectangle are alpha*src + (1-alpha)*dst,
    computed pixel by pixel and converted to the element type of [im_dst]
    by the assignment, and whose other pixels are those of [im_dst]. *)
Theorem paste_over_fully_inside `{BlendOps A P D V} (im_src : ndarray P)
  (im_dst : loc) (alpha : option (ndarray A)) (center : Q * Q) (inplace : bool)
  (h : gmap loc (ndarray D)) (dst : ndarray D) :
  h !! im_dst = Some dst ->
  alpha_fits im_src alpha ->
  fully_inside im_src dst center ->
  let p := place_in im_src dst center in
  let sy := (ideal_start_dst p).2 in
  let sx := (ideal_start_dst p).1 in
  exists l h' r,
    paste_over im_src im_dst alpha center inplace h = Some (l, h') /\
    h' !! l = Some r /\
    nrows r = nrows dst /\ ncols r = ncols dst /\
    forall y x, in_bounds dst y x ->
      (sy <= y < (ideal_end_dst p).2 /\ sx <= x < (ideal_end_dst p).1 ->
       in_bounds im_src (y - sy) (x - sx) /\
       item r y x =
         store_dst (blend (item (alpha_map im_src alpha) (y - sy) (x - sx))
                          (item im_src (y - sy) (x - sx))
                          (item dst y x))) /\
      (~ (sy <= y < (ideal_end_dst p).2 /\ sx <= x < (ideal_end_dst p).1) ->
       item r y x = item dst y x).
Proof.
  intros Hdst Hfit Hinside p sy sx.
  destruct (paste_into_spec im_src dst alpha center Hfit)
    as (r & Er & Hrr & Hrc & Hr).
  destruct (paste_over_returns im_src im_dst alpha center inplace h dst r Hdst Er)
    as (l & h' & Hrun & Hl).
  exists l, h', r. repeat (split; [assumption|]).
  intros y x Hyx.
  pose proof (in_region_fully_inside im_src dst center y x Hinside) as Hreg.
  pose proof (in_region_ideal im_src dst center y x) as Hsrc.
  cbv zeta in Hreg, Hsrc. fold p in Hr, Hreg, Hsrc. fold sy sx in Hr, Hreg, Hsrc.
  rewrite Hr. split.
  - intros Hrect. apply Hreg in Hrect. rewrite Hrect. split; [|reflexivity].
    now apply Hsrc.
  - intros Hrect. destruct (in_region p y x); [|reflexivity].
    exfalso. apply Hrect, Hreg. reflexivity.
Qed.

Lemma paste_over_fully_inside_witness :
  let p := place_in src_2x2 dst_3x4 (2 # 1, 1 # 1)%Q in
  let sy := (ideal_start_dst p).2 in
  let sx := (ideal_start_dst p).1 in
  exists l h' r,
    paste_over src_2x2 1%positive None (2 # 1, 1 # 1)%Q false heap_3x4 = Some (l, h') /\
    h' !! l = Some r /\
    nrows r = nrows dst_3x4 /\ ncols r = ncols dst_3x4 /\
    forall y x, in_bounds dst_3x4 y x ->
      (sy <= y < (ideal_end_dst p).2 /\ sx <= x < (ideal_end_dst p).1 ->
       in_bounds src_2x2 (y - sy) (x - sx) /\
       item r y x =
         store_dst (blend (item (alpha_map src_2x2 None) (y - sy) (x - sx))
                          (item src_2x2 (y - sy) (x - sx))
                          (item dst_3x4 y x))) /\
      (~ (sy <= y < (ideal_end_dst p).2 /\ sx <= x < (ideal_end_dst p).1) ->
       item r y x = item dst_3x4 y x).
Proof.
  apply (paste_over_fully_inside src_2x2 1%positive None (2 # 1, 1 # 1)%Q false
           heap_3x4 dst_3x4).
  - reflexivity.
  - exact I.
  - unfold fully_inside. vm_compute. repeat split; discriminate.
Defined.

(** C2: with the ideal rectangle entirely outside the destination the
    clamped rectangle is empty, and [paste_over] does not fail and returns
    an image equal to [im_dst]. *)
Theorem paste_over_fully_outside `{BlendOps A P D V} (im_src : ndarray P)
  (im_dst : loc) (alpha : option (ndarray A)) (center : Q * Q) (inplace : bool)
  (h : gmap loc (ndarray D)) (dst : ndarray D) :
  h !! im_dst = Some dst ->
  alpha_fits im_src alpha ->
  fully_outside im_src dst center ->
  (forall y x, in_region (place_in im_src dst center) y x = false) /\
  exists l h' r,
    paste_over im_src im_dst alpha center inplace h = Some (l, h') /\
    h' !! l = Some r /\
    nd_eq r dst.
Proof.
  intros Hdst Hfit Hout.
  split; [intros y x; now apply in_region_fully_outside|].
  destruct (paste_into_spec im_src dst alpha center Hfit)
    as (r & Er & Hrr & Hrc & Hr).
  destruct (paste_over_returns im_src im_dst alpha center inplace h dst r Hdst Er)
    as (l & h' & Hrun & Hl).
  exists l, h', r. repeat (split; [assumption|]).
  intros y x _. rewrite Hr.
  now rewrite (in_region_fully_outside im_src dst center y x Hout).
Qed.

Lemma paste_over_fully_outside_witness :
  (forall y x, in_region (place_in src_2x2 dst_3x4 (9 # 1, 1 # 1)%Q) y x = false) /\
  exists l h' r,
    paste_over src_2x2 1%positive None (9 # 1, 1 # 1)%Q false heap_3x4 = Some (l, h') /\
    h' !! l = Some r /\
    nd_eq r dst_3x4.
Proof.
  apply (paste_over_fully_outside src_2x2 1%positive None (9 # 1, 1 # 1)%Q false
           heap_3x4 dst_3x4).
  - reflexivity.
  - exact I.
  - unfold fully_outside. vm_compute. right. left. discriminate.
Defined.



(** C10: with [inplace] false [paste_over] writes into a new array and
    leaves every array of the heap, [im_dst] among them, as it was; with
    [inplace] true it writes the same pixels into [im_dst] and returns
    [im_dst].  Either way the array returned has the shape of [im_dst]. *)
Theorem paste_over_inplace_flag `{BlendOps A P D V} (im_src : ndarray P)
  (im_dst : loc) (alpha : option (ndarray A)) (center : Q * Q)
  (h : gmap loc (ndarray D)) (dst : ndarray D) :
  h !! im_dst = Some dst ->
  alpha_fits im_src alpha ->
  exists r,
    nrows r = nrows dst /\ ncols r = ncols dst /\
    (exists l,
        paste_over im_src im_dst alpha center false h = Some (l, <[l := r]> h) /\
        h !! l = None /\ l <> im_dst /\
        <[l := r]> h !! im_dst = Some dst /\
        <[l := r]> h !! l = Some r) /\
    paste_over im_src im_dst alpha center true h = Some (im_dst, <[im_dst := r]> h) /\
    <[im_dst := r]> h !! im_dst = Some r.
Proof.
  intros Hdst Hfit.
  destruct (paste_into_spec im_src dst alpha center Hfit)
    as (r & Er & Hrr & Hrc & _).
  exists r. split; [exact Hrr|]. split; [exact Hrc|].
  rewrite !(paste_over_run _ _ _ _ _ _ _ Hdst), Er. cbn [mbind option_bind].
  pose proof (fresh_not_allocated h) as Hfresh.
  assert (Hne : fresh (dom h) <> im_dst) by congruence.
  split.
  - exists (fresh (dom h)). split; [reflexivity|]. split; [exact Hfresh|].
    split; [exact Hne|]. split.
    + now rewrite lookup_insert_ne.
    + apply lookup_insert_eq.
  - split; [reflexivity|]. apply lookup_insert_eq.
Qed.

Lemma paste_over_inplace_flag_witness :
  exists r,
    nrows r = nrows dst_3x4 /\ ncols r = ncols dst_3x4 /\
    (exists l,
        paste_over src_2x2 1%positive None (0 # 1, 0 # 1)%Q false heap_3x4
          = Some (l, <[l := r]> heap_3x4) /\
        heap_3x4 !! l = None /\ l <> 1%positive /\
        <[l := r]> heap_3x4 !! 1%positive = Some dst_3x4 /\
        <[l := r]> heap_3x4 !! l = Some r) /\
    paste_over src_2x2 1%positive None (0 # 1, 0 # 1)%Q true heap_3x4
      = Some (1%positive, <[1%positive := r]> heap_3x4) /\
    <[1%positive := r]> heap_3x4 !! 1%positive = Some r.
Proof.
  apply (paste_over_inplace_flag src_2x2 1%positive None (0 # 1, 0 # 1)%Q
           heap_3x4 dst_3x4).
  - reflexivity.
  - exact I.
Defined.

(** C1, as stated, fails on a uint8 destination: a pixel 21 pasted over a
    pixel 10 with alpha 0.5 blends to 15.5, and the image returned holds
    15. *)
Lemma paste_over_uint8_drops_fraction :
  fully_inside src_1x1 dst_1x1 (0 # 1, 0 # 1)%Q /\
  blend (H := BlendU8) (item alpha_half 0 0) (item src_1x1 0 0) (item dst_1x1 0 0)
    = (31 # 2)%Q /\
  exists l h' r,
    paste_over (H := BlendU8) src_1x1 1%positive (Some alpha_half) (0 # 1, 0 # 1)%Q
      false heap_1x1 = Some (l, h') /\
    h' !! l = Some r /\
    item r 0 0 = 15 /\
    ~ (inject_Z (item r 0 0) == 31 # 2)%Q.
Proof.
  split; [unfold fully_inside; vm_compute; repeat split; discriminate|].
  split; [vm_compute; reflexivity|].
  destruct (paste_into_spec (H := BlendU8) src_1x1 dst_1x1 (Some alpha_half)
              (0 # 1, 0 # 1)%Q) as (r & Er & _ & _ & Hr); [split; reflexivity|].
  destruct (paste_over_returns (H := BlendU8) src_1x1 1%positive (Some alpha_half)
              (0 # 1, 0 # 1)%Q false heap_1x1 dst_1x1 r eq_refl Er)
    as (l & h' & Hrun & Hl).
  exists l, h', r. repeat (split; [assumption|]).
  rewrite (Hr 0 0).
  split; [vm_compute; reflexivity|].
  vm_compute. discriminate.
Qed.

(** ** paste_over at any placement *)

(** The rectangle the assignment writes is the part of the ideal rectangle
    that lies in the destination. *)
Lemma in_region_iff {P D : Type} (im_src : ndarray P) (im_dst : ndarray D)
  (center : Q * Q) (y x : Z) :
  let p := place_in im_src im_dst center in
  in_region p y x = true <->
  in_bounds im_dst y x /\
  (ideal_start_dst p).2 <= y < (ideal_end_dst p).2 /\
  (ideal_start_dst p).1 <= x < (ideal_end_dst p).1.
Proof.
  intros p. unfold in_region, in_bounds.
  set (isx := (ideal_start_dst p).1). set (isy := (ideal_start_dst p).2).
  clamped_bounds p im_src im_dst isx isy.
  unfold np_clip. rewrite !andb_true_iff. lia.
Qed.

(** X1: wherever the centre is, [paste_over] returns an image of the shape
    of [im_dst]; a pixel of it that the ideal rectangle covers is the blend
    with the source pixel at its offset in that rectangle, which exists,
    and every other pixel is as in [im_dst]. *)
Theorem paste_over_clipped `{BlendOps A P D V} (im_src : ndarray P)
  (im_dst : loc) (alpha : option (ndarray A)) (center : Q * Q) (inplace : bool)
  (h : gmap loc (ndarray D)) (dst : ndarray D) :
  h !! im_dst = Some dst ->
  alpha_fits im_src alpha ->
  let p := place_in im_src dst center in
  let sy := (ideal_start_dst p).2 in
  let sx := (ideal_start_dst p).1 in
  exists l h' r,
    paste_over im_src im_dst alpha center inplace h = Some (l, h') /\
    h' !! l = Some r /\
    nrows r = nrows dst /\ ncols r = ncols dst /\
    forall y x, in_bounds dst y x ->
      (sy <= y < (ideal_end_dst p).2 /\ sx <= x < (ideal_end_dst p).1 ->
       in_bounds im_src (y - sy) (x - sx) /\
       item r y x =
         store_dst (blend (item (alpha_map im_src alpha) (y - sy) (x - sx))
                          (item im_src (y - sy) (x - sx))
                          (item dst y x))) /\
      (~ (sy <= y < (ideal_end_dst p).2 /\ sx <= x < (ideal_end_dst p).1) ->
       item r y x = item dst y x).
Proof.
  intros Hdst Hfit p sy sx.
  destruct (paste_into_spec im_src dst alpha center Hfit)
    as (r & Er & Hrr & Hrc & Hr).
  destruct (paste_over_returns im_src im_dst alpha center inplace h dst r Hdst Er)
    as (l & h' & Hrun & Hl).
  exists l, h', r. repeat (split; [assumption|]).
  intros y x Hyx.
  pose proof (in_region_iff im_src dst center y x) as Hreg.
  pose proof (in_region_ideal im_src dst center y x) as Hsrc.
  cbv zeta in Hreg, Hsrc. fold p in Hr, Hreg, Hsrc. fold sy sx in Hr, Hreg, Hsrc.
  rewrite Hr. split.
  - intros Hrect.
    assert (Hin : in_region p y x = true) by (apply Hreg; tauto).
    rewrite Hin. split; [|reflexivity]. now apply Hsrc.
  - intros Hrect. destruct (in_region p y x); [|reflexivity].
    exfalso. apply Hrect. now apply Hreg.
Qed.

Lemma paste_over_clipped_witness :
  let p := place_in src_2x2 dst_3x4 (0 # 1, 3 # 1)%Q in
  let sy := (ideal_start_dst p).2 in
  let sx := (ideal_start_dst p).1 in
  exists l h' r,
    paste_over src_2x2 1%positive None (0 # 1, 3 # 1)%Q false heap_3x4 = Some (l, h') /\
    h' !! l = Some r /\
    nrows r = nrows dst_3x4 /\ ncols r = ncols dst_3x4 /\
    forall y x, in_bounds dst_3x4 y x ->
      (sy <= y < (ideal_end_dst p).2 /\ sx <= x < (ideal_end_dst p).1 ->
       in_bounds src_2x2 (y - sy) (x - sx) /\
       item r y x =
         store_dst (blend (item (alpha_map src_2x2 None) (y - sy) (x - sx))
                          (item src_2x2 (y - sy) (x - sx))
                          (item dst_3x4 y x))) /\
      (~ (sy <= y < (ideal_end_dst p).2 /\ sx <= x < (ideal_end_dst p).1) ->
       item r y x = item dst_3x4 y x).
Proof.
  apply (paste_over_clipped src_2x2 1%positive None (0 # 1, 3 # 1)%Q false
           heap_3x4 dst_3x4).
  - reflexivity.
  - exact I.
Defined.

(** X2: when the rounded centre is a pixel of the destination and the
    source is not empty, that pixel receives the source pixel of index
    (height // 2, width // 2). *)
Theorem paste_over_center_pixel `{BlendOps A P D V} (im_src : ndarray P)
  (im_dst : loc) (alpha : option (ndarray A)) (center : Q * Q) (inplace : bool)
  (h : gmap loc (ndarray D)) (dst : ndarray D) :
  h !! im_dst = Some dst ->
  alpha_fits im_src alpha ->
  let cy := astype_int32 (np_round center.2) in
  let cx := astype_int32 (np_round center.1) in
  let my := Z.of_nat (nrows im_src) / 2 in
  let mx := Z.of_nat (ncols im_src) / 2 in
  in_bounds dst cy cx ->
  (0 < nrows im_src)%nat -> (0 < ncols im_src)%nat ->
  exists l h' r,
    paste_over im_src im_dst alpha center inplace h = Some (l, h') /\
    h' !! l = Some r /\
    in_bounds im_src my mx /\
    item r cy cx =
      store_dst (blend (item (alpha_map im_src alpha) my mx)
                       (item im_src my mx) (item dst cy cx)).
Proof.
  intros Hdst Hfit cy cx my mx Hc Hrows Hcols.
  destruct (paste_into_spec im_src dst alpha center Hfit)
    as (r & Er & _ & _ & Hr).
  destruct (paste_over_returns im_src im_dst alpha center inplace h dst r Hdst Er)
    as (l & h' & Hrun & Hl).
  exists l, h', r. repeat (split; [assumption|]).
  set (p := place_in im_src dst center) in *.
  assert (Hsy : (ideal_start_dst p).2 = cy - my) by reflexivity.
  assert (Hsx : (ideal_start_dst p).1 = cx - mx) by reflexivity.
  assert (Hey : (ideal_end_dst p).2 = cy - my + Z.of_nat (nrows im_src))
    by reflexivity.
  assert (Hex : (ideal_end_dst p).1 = cx - mx + Z.of_nat (ncols im_src))
    by reflexivity.
  assert (Hmy : 0 <= my < Z.of_nat (nrows im_src))
    by (subst my; split; [apply Z.div_pos|apply Z.div_lt_upper_bound]; lia).
  assert (Hmx : 0 <= mx < Z.of_nat (ncols im_src))
    by (subst mx; split; [apply Z.div_pos|apply Z.div_lt_upper_bound]; lia).
  split; [split; assumption|].
  rewrite Hr.
  assert (Hin : in_region p cy cx = true).
  { apply (in_region_iff im_src dst center cy cx). fold p.
    rewrite Hsy, Hsx, Hey, Hex. split; [exact Hc|lia]. }
  rewrite Hin, Hsy, Hsx.
  replace (cy - (cy - my)) with my by lia.
  replace (cx - (cx - mx)) with mx by lia.
  reflexivity.
Qed.

Lemma paste_over_center_pixel_witness :
  exists l h' r,
    paste_over src_2x2 1%positive None (3 # 1, 2 # 1)%Q false heap_3x4 = Some (l, h') /\
    h' !! l = Some r /\
    in_bounds src_2x2 (Z.of_nat (nrows src_2x2) / 2) (Z.of_nat (ncols src_2x2) / 2) /\
    item r (astype_int32 (np_round (2 # 1))) (astype_int32 (np_round (3 # 1))) =
      store_dst (blend (item (alpha_map src_2x2 None)
                          (Z.of_nat (nrows src_2x2) / 2) (Z.of_nat (ncols src_2x2) / 2))
                       (item src_2x2 (Z.of_nat (nrows src_2x2) / 2)
                             (Z.of_nat (ncols src_2x2) / 2))
                       (item dst_3x4 (astype_int32 (np_round (2 # 1)))
                             (astype_int32 (np_round (3 # 1))))).
Proof.
  apply (paste_over_center_pixel src_2x2 1%positive None (3 # 1, 2 # 1)%Q false
           heap_3x4 dst_3x4).
  - reflexivity.
  - exact I.
  - vm_compute. repeat split; discriminate.
  - simpl. lia.
  - simpl. lia.
Defined.

(** X3: an alpha map whose elements all give a blend equal to the
    destination pixel (alpha 0) makes [paste_over] return an image equal
    to [im_dst], wherever the centre is. *)
Theorem paste_over_transparent `{BlendOps A P D V} (im_src : ndarray P)
  (im_dst : loc) (alpha : ndarray A) (center : Q * Q) (inplace : bool)
  (h : gmap loc (ndarray D)) (dst : ndarray D) :
  h !! im_dst = Some dst ->
  alpha_fits im_src (Some alpha) ->
  (forall r c, in_bounds alpha r c ->
     forall s d, store_dst (blend (item alpha r c) s d) = d) ->
  exists l h' r,
    paste_over im_src im_dst (Some alpha) center inplace h = Some (l, h') /\
    h' !! l = Some r /\
    nd_eq r dst.
Proof.
  intros Hdst Hfit Hzero.
  destruct (paste_into_spec im_src dst (Some alpha) center Hfit)
    as (r & Er & Hrr & Hrc & Hr).
  destruct (paste_over_returns im_src im_dst (Some alpha) center inplace h dst r
              Hdst Er) as (l & h' & Hrun & Hl).
  exists l, h', r. repeat (split; [assumption|]).
  intros y x _. rewrite Hr.
  destruct (in_region (place_in im_src dst center) y x) eqn:Hin; [|reflexivity].
  apply in_region_ideal in Hin as (_ & _ & [Hy Hx] & _).
  destruct Hfit as [Har Hac]. cbn [alpha_map].
  apply Hzero. unfold in_bounds. rewrite Har, Hac. lia.
Qed.

Lemma paste_over_transparent_witness :
  exists l h' r,
    paste_over src_2x2 1%positive (Some (nd_full 2 2 0)) (1 # 1, 1 # 1)%Q true heap_3x4
      = Some (l, h') /\
    h' !! l = Some r /\
    nd_eq r dst_3x4.
Proof.
  apply (paste_over_transparent src_2x2 1%positive (nd_full 2 2 0) (1 # 1, 1 # 1)%Q
           true heap_3x4 dst_3x4).
  - reflexivity.
  - split; reflexivity.
  - intros r c _ s d. unfold blend. simpl. lia.
Defined.

Lemma broadcast_dim_Some (n m k : nat) :
  broadcast_dim n m = Some k ->
  (n = m /\ k = n) \/ (n = 1%nat /\ k = m) \/ (m = 1%nat /\ k = n).
Proof.
  unfold broadcast_dim.
  destruct (Nat.eqb_spec n m), (Nat.eqb_spec n 1), (Nat.eqb_spec m 1);
    intros [= <-]; lia.
Qed.

Lemma nd_map2_Some_shape {T U W : Type} (f : T -> U -> W)
  (a : ndarray T) (b : ndarray U) (r : ndarray W) :
  nd_map2 f a b = Some r ->
  broadcast_dim (nrows a) (nrows b) = Some (nrows r) /\
  broadcast_dim (ncols a) (ncols b) = Some (ncols r).
Proof.
  unfold nd_map2.
  destruct (broadcast_dim (nrows a) (nrows b)) as [k|]; [|discriminate].
  destruct (broadcast_dim (ncols a) (ncols b)) as [k'|]; [|discriminate].
  cbn [mbind option_bind]. intros [= <-]. split; reflexivity.
Qed.

Lemma setslice_Some_shape {T W : Type} (conv : W -> T) (a : ndarray T)
  (y0 y1 x0 x1 : Z) (v : ndarray W) (r : ndarray T) :
  setslice conv a y0 y1 x0 x1 v = Some r ->
  (nrows v = (slice_bounds (nrows a) y0 y1).2 \/ nrows v = 1%nat) /\
  (ncols v = (slice_bounds (ncols a) x0 x1).2 \/ ncols v = 1%nat).
Proof.
  unfold setslice, broadcasts_to.
  destruct (slice_bounds (nrows a) y0 y1) as [r0 hh].
  destruct (slice_bounds (ncols a) x0 x1) as [c0 ww]. cbn [snd].
  destruct (Nat.eqb_spec (nrows v) hh), (Nat.eqb_spec (nrows v) 1),
           (Nat.eqb_spec (ncols v) ww), (Nat.eqb_spec (ncols v) 1);
    cbn [orb andb]; intros [= _]; lia.
Qed.

Lemma getslice_shape {T : Type} (a : ndarray T) (y0 y1 x0 x1 : Z) :
  nrows (getslice a y0 y1 x0 x1) = (slice_bounds (nrows a) y0 y1).2 /\
  ncols (getslice a y0 y1 x0 x1) = (slice_bounds (ncols a) x0 x1).2.
Proof.
  unfold getslice.
  destruct (slice_bounds (nrows a) y0 y1), (slice_bounds (ncols a) x0 x1).
  split; reflexivity.
Qed.

(** One axis of a source inside the destination: the slices of the
    destination and of the source are whole, and the slice of an alpha map
    with [n_alpha] entries on the axis has as many as it can give. *)
Lemma axis_inside (n_src n_dst n_alpha : nat) (i0 : Z) :
  0 <= i0 -> i0 + Z.of_nat n_src <= Z.of_nat n_dst ->
  let i1 := i0 + Z.of_nat n_src in
  let s := np_clip i0 0 (Z.of_nat n_dst) in
  let e := np_clip i1 0 (Z.of_nat n_dst) in
  (slice_bounds n_dst s e).2 = n_src /\
  (slice_bounds n_src (s - i0) (Z.of_nat n_src + (e - i1))).2 = n_src /\
  (slice_bounds n_alpha (s - i0) (Z.of_nat n_src + (e - i1))).2
    = Nat.min n_alpha n_src.
Proof.
  intros H0 H1 i1 s e.
  assert (Hs : s = i0) by (subst s; unfold np_clip; lia).
  assert (He : e = i1) by (subst e i1; unfold np_clip; lia).
  rewrite Hs, He.
  replace (i0 - i0) with 0 by lia.
  replace (Z.of_nat n_src + (i1 - i1)) with (Z.of_nat n_src) by lia.
  subst i1. unfold slice_bounds, slice_index. cbn [snd].
  repeat match goal with |- context [?a <? ?b] => destruct (Z.ltb_spec a b) end;
    lia.
Qed.

(** With the source inside the destination, the three slices of
    [paste_over] are whole: the source, as many rows and columns of the
    alpha map as it has up to the source's, and a region of the source's
    size. *)
Lemma inside_slice_shapes {A P D : Type} (im_src : ndarray P) (dst : ndarray D)
  (alpha : ndarray A) (center : Q * Q) :
  fully_inside im_src dst center ->
  let p := place_in im_src dst center in
  let region_dst :=
    getslice dst (start_dst p).2 (end_dst p).2 (start_dst p).1 (end_dst p).1 in
  let alpha' :=
    getslice alpha (start_src p).2 (end_src p).2 (start_src p).1 (end_src p).1 in
  let region_src :=
    getslice im_src (start_src p).2 (end_src p).2 (start_src p).1 (end_src p).1 in
  nrows region_dst = nrows im_src /\ ncols region_dst = ncols im_src /\
  nrows region_src = nrows im_src /\ ncols region_src = ncols im_src /\
  nrows alpha' = Nat.min (nrows alpha) (nrows im_src) /\
  ncols alpha' = Nat.min (ncols alpha) (ncols im_src) /\
  (slice_bounds (nrows dst) (start_dst p).2 (end_dst p).2).2 = nrows im_src /\
  (slice_bounds (ncols dst) (start_dst p).1 (end_dst p).1).2 = ncols im_src.
Proof.
  intros Hin p. unfold fully_inside in Hin. fold p in Hin.
  destruct Hin as (Hx0 & Hx1 & Hy0 & Hy1).
  destruct (axis_inside (ncols im_src) (ncols dst) (ncols alpha)
              (ideal_start_dst p).1 Hx0 Hx1) as (Hdx & Hsx & Hax).
  destruct (axis_inside (nrows im_src) (nrows dst) (nrows alpha)
              (ideal_start_dst p).2 Hy0 Hy1) as (Hdy & Hsy & Hay).
  cbv zeta in Hdx, Hsx, Hax, Hdy, Hsy, Hay.
  repeat match goal with
         | |- context [nrows (getslice ?a ?y0 ?y1 ?x0 ?x1)] =>
             rewrite (proj1 (getslice_shape a y0 y1 x0 x1))
         | |- context [ncols (getslice ?a ?y0 ?y1 ?x0 ?x1)] =>
             rewrite (proj2 (getslice_shape a y0 y1 x0 x1))
         end.
  repeat split; assumption.
Qed.

(** X4: an alpha map with fewer rows or fewer columns than the source
    (and not exactly one) makes [paste_over] raise, when the source lies
    inside the destination: numpy cannot broadcast the slices together. *)
Theorem paste_over_small_alpha_raises `{BlendOps A P D V} (im_src : ndarray P)
  (im_dst : loc) (alpha : ndarray A) (center : Q * Q) (inplace : bool)
  (h : gmap loc (ndarray D)) (dst : ndarray D) :
  h !! im_dst = Some dst ->
  fully_inside im_src dst center ->
  ((nrows alpha < nrows im_src)%nat /\ nrows alpha <> 1%nat) \/
  ((ncols alpha < ncols im_src)%nat /\ ncols alpha <> 1%nat) ->
  paste_over im_src im_dst (Some alpha) center inplace h = None.
Proof.
  intros Hdst Hin Hsmall.
  rewrite (paste_over_run _ _ _ _ _ _ _ Hdst).
  destruct (paste_into im_src dst (Some alpha) center) as [r|] eqn:Er;
    [exfalso|reflexivity].
  pose proof (inside_slice_shapes im_src dst alpha center Hin)
    as (Hd1 & Hd2 & Hs1 & Hs2 & Ha1 & Ha2 & Hb1 & Hb2).
  cbv zeta in Hd1, Hd2, Hs1, Hs2, Ha1, Ha2, Hb1, Hb2.
  unfold paste_into in Er. cbv zeta in Er. cbn [alpha_map] in Er.
  set (p := place_in im_src dst center) in *.
  destruct (nd_map2 mul_src _ _) as [t1|] eqn:E1; [|discriminate].
  cbn [mbind option_bind] in Er.
  destruct (nd_map2 mul_dst _ _) as [t2|] eqn:E2; [|discriminate].
  cbn [mbind option_bind] in Er.
  destruct (nd_map2 add_val t1 t2) as [v|] eqn:E3; [|discriminate].
  cbn [mbind option_bind] in Er.
  apply nd_map2_Some_shape in E1 as [E1r E1c].
  apply nd_map2_Some_shape in E2 as [E2r E2c].
  apply nd_map2_Some_shape in E3 as [E3r E3c].
  apply setslice_Some_shape in Er as [Er1 Er2].
  cbn [nrows ncols nd_map] in E2r, E2c.
  rewrite Hb1 in Er1. rewrite Hb2 in Er2.
  rewrite Ha1, ?Hs1, ?Hd1 in E1r, E2r. rewrite Ha2, ?Hs2, ?Hd2 in E1c, E2c.
  destruct Hsmall as [Hrows | Hcols].
  - clear E1c E2c E3c Er2. apply broadcast_dim_Some in E1r, E2r, E3r. lia.
  - clear E1r E2r E3r Er1. apply broadcast_dim_Some in E1c, E2c, E3c. lia.
Qed.

Lemma paste_over_small_alpha_raises_witness :
  paste_over src_2x2 1%positive (Some (nd_full 0 2 1)) (2 # 1, 1 # 1)%Q false heap_3x4
  = None.
Proof.
  apply (paste_over_small_alpha_raises src_2x2 1%positive (nd_full 0 2 1)
           (2 # 1, 1 # 1)%Q false heap_3x4 dst_3x4).
  - reflexivity.
  - unfold fully_inside. vm_compute. repeat split; discriminate.
  - left. simpl. lia.
Defined.

Example paste_over_half_pixel_centers :
  returned_rows (paste_over src_2x2 1%positive None (5 # 2, 3 # 2)%Q false heap_3x4)
  = Some [[10; 10; 10; 10]; [10; 1; 2; 10]; [10; 3; 4; 10]] /\
  returned_rows (paste_over src_2x2 1%positive None (3 # 2, 1 # 2)%Q false heap_3x4)
  = Some [[10; 3; 4; 10]; [10; 10; 10; 10]; [10; 10; 10; 10]].
Proof. split; vm_compute; reflexivity. Qed.

(** ** remove_small_components at any size *)

Lemma fold_clear_label_shape (labels : ndarray Z) (ids : list Z) (mask : ndarray Z) :
  nrows (fold_left (clear_label labels) ids mask) = nrows mask /\
  ncols (fold_left (clear_label labels) ids mask) = ncols mask.
Proof.
  revert mask. induction ids as [|i ids IH]; intros mask; simpl; [auto|].
  destruct (IH (clear_label labels mask i)) as [-> ->]. auto.
Qed.

Lemma fold_clear_label_item (labels : ndarray Z) (ids : list Z) (mask : ndarray Z)
  (r c : Z) :
  item (fold_left (clear_label labels) ids mask) r c =
    if existsb (Z.eqb (item labels r c)) ids then 0 else item mask r c.
Proof.
  revert mask. induction ids as [|i ids IH]; intros mask; simpl; [reflexivity|].
  rewrite IH. simpl.
  destruct (item labels r c =? i), (existsb (Z.eqb (item labels r c)) ids);
    reflexivity.
Qed.

Lemma filter_combine_seq (bs : list bool) (s n : nat) (b : bool) :
  In (n, b) (filter (fun p : nat * bool => p.2) (combine (seq s (length bs)) bs)) <->
  b = true /\ (s <= n)%nat /\ nth_error bs (n - s) = Some true.
Proof.
  revert s. induction bs as [|b0 bs IH]; intros s; simpl.
  - split; [tauto|]. intros (_ & _ & Hn). destruct (n - s)%nat; discriminate.
  - assert (Hstep : (s < n)%nat -> (n - s)%nat = S (n - S s)) by lia.
    destruct b0.
    + rewrite filter_cons_True by exact I. simpl. rewrite IH. split.
      * intros [Heq | (-> & Hs & Hn)].
        -- injection Heq as <- <-. rewrite Nat.sub_diag. auto.
        -- rewrite Hstep by lia. auto with lia.
      * intros (-> & Hs & Hn).
        destruct (Nat.eq_dec n s) as [->|Hne]; [now left|right].
        rewrite Hstep in Hn by lia. auto with lia.
    + rewrite filter_cons_False by (intros []). rewrite IH. split.
      * intros (-> & Hs & Hn). rewrite Hstep by lia. auto with lia.
      * intros (-> & Hs & Hn).
        destruct (Nat.eq_dec n s) as [->|Hne].
        -- rewrite Nat.sub_diag in Hn. discriminate.
        -- rewrite Hstep in Hn by lia. auto with lia.
Qed.

(** The indices [argwhere] returns are those that hold True. *)
Lemma argwhere_In (bs : list bool) (i : Z) :
  In i (argwhere bs) <-> exists n, i = Z.of_nat n /\ nth_error bs n = Some true.
Proof.
  unfold argwhere. rewrite List.in_map_iff. split.
  - intros ([n b] & <- & Hin). apply filter_combine_seq in Hin as (_ & _ & Hn).
    exists n. rewrite Nat.sub_0_r in Hn. auto.
  - intros (n & -> & Hn). exists (n, true). split; [reflexivity|].
    apply filter_combine_seq. rewrite Nat.sub_0_r. split; [reflexivity|].
    split; [lia|exact Hn].
Qed.

(** X5: [remove_small_components] returns a mask of the same shape in which
    a pixel is 0 when the component it is labelled with has an area below
    [min_size], and is as in [mask] when that area is at least [min_size]
    (or the label has no row of statistics). *)
Theorem remove_small_components_pixels
  (connectedComponentsWithStats : ndarray Z -> Z -> components)
  (mask : ndarray Z) (min_size connectivity : Z) :
  let out := connectedComponentsWithStats mask connectivity in
  let areas := last_column (stats out) in
  let result :=
    remove_small_components connectedComponentsWithStats mask min_size connectivity in
  nrows result = nrows mask /\ ncols result = ncols mask /\
  (forall r c n area,
      item (labels out) r c = Z.of_nat n -> nth_error areas n = Some area ->
      area < min_size -> item result r c = 0) /\
  (forall r c,
      (forall n area,
          item (labels out) r c = Z.of_nat n -> nth_error areas n = Some area ->
          min_size <= area) ->
      item result r c = item mask r c).
Proof.
  intros out areas result. subst result. unfold remove_small_components.
  fold out. fold areas.
  split; [apply fold_clear_label_shape|]. split; [apply fold_clear_label_shape|].
  split.
  - intros r c n area Hl Hn Hsmall. rewrite fold_clear_label_item.
    replace (existsb _ _) with true; [reflexivity|].
    symmetry. apply List.existsb_exists. exists (Z.of_nat n).
    split; [|now apply Z.eqb_eq].
    apply argwhere_In. exists n. split; [reflexivity|].
    rewrite List.nth_error_map, Hn. simpl. f_equal. now apply Z.ltb_lt.
  - intros r c Hbig. rewrite fold_clear_label_item.
    replace (existsb _ _) with false; [reflexivity|].
    symmetry. apply not_true_is_false. intros Hex.
    apply List.existsb_exists in Hex as (i & Hin & Heq).
    apply Z.eqb_eq in Heq. apply argwhere_In in Hin as (n & -> & Hn).
    rewrite List.nth_error_map in Hn.
    destruct (nth_error areas n) as [area|] eqn:Ha; [|discriminate].
    simpl in Hn. injection Hn as Hlt. apply Z.ltb_lt in Hlt.
    specialize (Hbig n area Heq Ha). lia.
Qed.

Example remove_small_components_blob :
  to_lists (remove_small_components one_blob_components
              (of_lists 0 3 [[0; 1; 1]; [0; 1; 0]]) 4 8)
  = [[0; 0; 0]; [0; 0; 0]] /\
  to_lists (remove_small_components one_blob_components
              (of_lists 0 3 [[0; 1; 1]; [0; 1; 0]]) 3 8)
  = [[0; 1; 1]; [0; 1; 0]].
Proof. split; vm_compute; reflexivity. Qed.

(** ** largest_connected_component with a foreground *)

Lemma argsort_insert_In (key : Z -> Z) (i x : Z) (l : list Z) :
  In x (argsort_insert key i l) <-> x = i \/ In x l.
Proof.
  induction l as [|j l IH]; simpl; [intuition|].
  destruct (key i <? key j); simpl; rewrite ?IH; intuition.
Qed.

Lemma argsort_insert_sorted (key : Z -> Z) (i : Z) (l : list Z) :
  StronglySorted (fun a b => key a <= key b) l ->
  StronglySorted (fun a b => key a <= key b) (argsort_insert key i l).
Proof.
  induction 1 as [|j l Hl IH Hj]; simpl.
  - repeat constructor.
  - destruct (Z.ltb_spec (key i) (key j)) as [Hlt|Hge].
    + constructor; [now constructor|].
      constructor; [lia|].
      eapply List.Forall_impl; [|exact Hj]. simpl. intros x Hx. lia.
    + constructor; [exact IH|].
      apply List.Forall_forall. intros x Hx.
      apply argsort_insert_In in Hx as [->|Hx]; [lia|].
      now apply (proj1 (List.Forall_forall _ _) Hj).
Qed.

Lemma fold_argsort_insert (key : Z -> Z) (idxs acc : list Z) :
  StronglySorted (fun a b => key a <= key b) acc ->
  StronglySorted (fun a b => key a <= key b)
    (fold_left (fun acc i => argsort_insert key i acc) idxs acc) /\
  forall x,
    In x (fold_left (fun acc i => argsort_insert key i acc) idxs acc) <->
    In x idxs \/ In x acc.
Proof.
  revert acc. induction idxs as [|i idxs IH]; intros acc Hacc; simpl.
  - split; [exact Hacc|]. intuition.
  - destruct (IH (argsort_insert key i acc) (argsort_insert_sorted key i acc Hacc))
      as [Hs Hin].
    split; [exact Hs|]. intros x. rewrite Hin, argsort_insert_In. intuition.
Qed.

Lemma last_In {T : Type} (l : list T) (d : T) : l <> [] -> In (List.last l d) l.
Proof.
  induction l as [|a [|b l] IH]; intros Hne; [congruence|now left|].
  right. apply IH. discriminate.
Qed.

Lemma sorted_last_max (key : Z -> Z) (l : list Z) (d : Z) :
  StronglySorted (fun a b => key a <= key b) l ->
  forall x, In x l -> key x <= key (List.last l d).
Proof.
  induction 1 as [|a l Hl IH Ha]; intros x Hx; [destruct Hx|].
  destruct l as [|b l].
  - destruct Hx as [->|[]]. simpl. lia.
  - change (List.last (a :: b :: l) d) with (List.last (b :: l) d).
    destruct Hx as [->|Hx]; [|now apply IH].
    apply (proj1 (List.Forall_forall _ _) Ha). apply last_In. discriminate.
Qed.

(** The last index [np.argsort] returns is in range and holds a largest
    element. *)
Lemma np_argsort_last_max (a : list Z) :
  a <> [] ->
  let i := List.last (np_argsort a) 0 in
  0 <= i < Z.of_nat (length a) /\
  forall j, (j < length a)%nat -> nth j a 0 <= nth (Z.to_nat i) a 0.
Proof.
  intros Hne i. subst i. unfold np_argsort.
  set (key := fun k : Z => nth (Z.to_nat k) a 0).
  destruct (fold_argsort_insert key (map Z.of_nat (seq 0 (length a))) []
              ltac:(constructor)) as [Hs Hin].
  set (res := fold_left _ _ _) in *.
  assert (Hidx : forall x, In x res <-> exists j, (j < length a)%nat /\ x = Z.of_nat j).
  { intros x. rewrite Hin, List.in_map_iff. split.
    - intros [(j & <- & Hj)|[]]. apply List.in_seq in Hj. exists j. split; [lia|auto].
    - intros (j & Hj & ->). left. exists j. split; [reflexivity|].
      apply List.in_seq. lia. }
  assert (Hres : res <> []).
  { destruct a as [|a0 a]; [congruence|]. intros Hnil.
    assert (Hin0 : In 0 res) by (apply Hidx; exists 0%nat; simpl; split; [lia|auto]).
    rewrite Hnil in Hin0. destruct Hin0. }
  pose proof (last_In res 0 Hres) as Hlast.
  apply Hidx in Hlast as (j0 & Hj0 & Hj0eq).
  split; [lia|].
  intros j Hj.
  pose proof (sorted_last_max key res 0 Hs (Z.of_nat j)) as Hmax.
  unfold key in Hmax. rewrite Nat2Z.id in Hmax. apply Hmax.
  apply Hidx. exists j. auto.
Qed.

(** X6: on a mask with at least one foreground component,
    [largest_connected_component] picks a foreground label whose area is
    no smaller than that of any other foreground label, and returns the
    mask with 1 at the pixels of that label and 0 elsewhere together with
    the first four statistics (the box) of that label. *)
Theorem largest_connected_component_picks_largest
  (connectedComponentsWithStats : ndarray Z -> Z -> components)
  (mask : ndarray Z) :
  let out := connectedComponentsWithStats (nd_map astype_uint8 mask) 4 in
  let area := fun j : nat => List.last (nth j (stats out) []) 0 in
  (2 <= length (stats out))%nat ->
  exists L : nat,
    (1 <= L < length (stats out))%nat /\
    (forall j, (1 <= j < length (stats out))%nat -> area j <= area L) /\
    largest_connected_component connectedComponentsWithStats mask
    = (nd_map (fun l => if l =? Z.of_nat L then 1 else 0) (labels out),
       firstn 4 (nth L (stats out) [])).
Proof.
  intros out area Hlen. unfold largest_connected_component. fold out.
  destruct (stats out) as [|row0 rows] eqn:Hst; [simpl in Hlen; lia|].
  cbn [tail]. simpl in Hlen.
  assert (Hareas : length (last_column rows) = length rows)
    by (unfold last_column; apply length_map).
  assert (Hne : last_column rows <> [])
    by (destruct rows; [simpl in Hlen; lia|discriminate]).
  destruct (Nat.ltb_spec (length (last_column rows)) 1) as [Hlt|_]; [lia|].
  destruct (np_argsort_last_max (last_column rows) Hne) as [Hi Hmax].
  set (i := List.last (np_argsort (last_column rows)) 0) in *.
  assert (Hnth : forall k, nth k (last_column rows) 0 = area (S k)).
  { intros k. unfold area, last_column. cbn [nth].
    exact (List.map_nth (fun row : list Z => List.last row 0) rows [] k). }
  exists (S (Z.to_nat i)).
  replace (Z.of_nat (S (Z.to_nat i))) with (1 + i) by lia.
  replace (Z.to_nat (1 + i)) with (S (Z.to_nat i)) by lia.
  split; [simpl; lia|]. split; [|reflexivity].
  intros [|j] Hj; [lia|]. simpl in Hj.
  rewrite <- !Hnth. apply Hmax. lia.
Qed.

Lemma largest_connected_component_picks_largest_witness :
  let mask := of_lists 0 3 [[0; 1; 1]; [0; 1; 0]] in
  let out := one_blob_components (nd_map astype_uint8 mask) 4 in
  let area := fun j : nat => List.last (nth j (stats out) []) 0 in
  exists L : nat,
    (1 <= L < length (stats out))%nat /\
    (forall j, (1 <= j < length (stats out))%nat -> area j <= area L) /\
    largest_connected_component one_blob_components mask
    = (nd_map (fun l => if l =? Z.of_nat L then 1 else 0) (labels out),
       firstn 4 (nth L (stats out) [])).
Proof.
  intros mask.
  apply (largest_connected_component_picks_largest one_blob_components mask).
  vm_compute. lia.
Defined.

(** ** adjust_gamma at gamma 1 *)

Lemma get_gamma_lookup_table_power_one (float_power : Q -> Q -> Q) :
  (forall x, float_power x 1%Q = x) ->
  get_gamma_lookup_table float_power 1 = get_gamma_lookup_table power_at_one 1.
Proof.
  intros Hpow. unfold get_gamma_lookup_table. apply List.map_ext.
  intros x. now rewrite Hpow.
Qed.

(** X7: [adjust_gamma(image, 1)] leaves every pixel of a uint8 image as
    it is or makes it one less; it never raises a pixel and never changes
    it by more than 1. *)
Theorem adjust_gamma_one_at_most_one_less (float_power : Q -> Q -> Q)
  (image : ndarray Z) (r c : Z) :
  (forall x, float_power x 1%Q = x) ->
  0 <= item image r c < 256 ->
  item (adjust_gamma float_power image 1) r c = item image r c \/
  item (adjust_gamma float_power image 1) r c = item image r c - 1.
Proof.
  intros Hpow Hv. unfold adjust_gamma, cv2_LUT.
  rewrite (get_gamma_lookup_table_power_one float_power Hpow).
  cbn [item nd_map].
  set (v := item image r c) in *.
  set (table := get_gamma_lookup_table power_at_one 1).
  assert (Hall : forallb (fun n : nat =>
                   (nth n table 0 =? Z.of_nat n) ||
                   (nth n table 0 =? Z.of_nat n - 1)) (seq 0 256) = true)
    by (vm_compute; reflexivity).
  rewrite List.forallb_forall in Hall.
  specialize (Hall (Z.to_nat v)).
  rewrite Z2Nat.id in Hall by lia.
  assert (Hin : In (Z.to_nat v) (seq 0 256)) by (apply List.in_seq; lia).
  apply Hall in Hin. apply orb_true_iff in Hin as [Heq|Heq];
    apply Z.eqb_eq in Heq; auto.
Qed.

Lemma adjust_gamma_one_at_most_one_less_witness :
  item (adjust_gamma power_at_one (of_lists 0 2 [[33; 34]]) 1) 0 1 = 34 \/
  item (adjust_gamma power_at_one (of_lists 0 2 [[33; 34]]) 1) 0 1 = 34 - 1.
Proof.
  apply (adjust_gamma_one_at_most_one_less power_at_one (of_lists 0 2 [[33; 34]]) 0 1).
  - intros x. reflexivity.
  - simpl. lia.
Defined.

(** ** paste_over with an alpha map larger than the source *)

(** One axis of an alpha map with at least the source's extent: the slice
    taken of it is the one taken of the source. *)
Lemma axis_cover_slice (n_src n_dst n_alpha : nat) (i0 : Z) :
  (n_src <= n_alpha)%nat ->
  let i1 := i0 + Z.of_nat n_src in
  let s := np_clip i0 0 (Z.of_nat n_dst) in
  let e := np_clip i1 0 (Z.of_nat n_dst) in
  exists k,
    slice_bounds n_alpha (s - i0) (Z.of_nat n_src + (e - i1)) = (k, Z.to_nat (e - s)) /\
    (s < e -> k = s - i0).
Proof.
  intros Hle i1 s e. subst i1 s e.
  exists (slice_index (Z.of_nat n_alpha) (np_clip i0 0 (Z.of_nat n_dst) - i0)).
  unfold slice_bounds, slice_index, np_clip.
  repeat match goal with |- context [?a <? ?b] => destruct (Z.ltb_spec a b) end;
    split; try (f_equal; lia); lia.
Qed.

Lemma paste_into_covering_alpha `{BlendOps A P D V} (im_src : ndarray P)
  (result : ndarray D) (alpha : ndarray A) (center : Q * Q) :
  (nrows im_src <= nrows alpha)%nat -> (ncols im_src <= ncols alpha)%nat ->
  let p := place_in im_src result center in
  exists r, paste_into im_src result (Some alpha) center = Some r /\
    nrows r = nrows result /\ ncols r = ncols result /\
    forall y x,
      item r y x =
        if in_region p y x then
          store_dst
            (blend (item alpha (y - (ideal_start_dst p).2) (x - (ideal_start_dst p).1))
                   (item im_src (y - (ideal_start_dst p).2) (x - (ideal_start_dst p).1))
                   (item result y x))
        else item result y x.
Proof.
  intros Hrows Hcols p.
  destruct (place_slices im_src result center)
    as (ky & kx & Hdy & Hdx & Hsy & Hsx & Hky & Hkx & Hy1 & Hx1).
  fold p in Hdy, Hdx, Hsy, Hsx, Hky, Hkx, Hy1, Hx1.
  destruct (axis_cover_slice (nrows im_src) (nrows result) (nrows alpha)
              (ideal_start_dst p).2 Hrows) as (ay & Hay & Haky).
  destruct (axis_cover_slice (ncols im_src) (ncols result) (ncols alpha)
              (ideal_start_dst p).1 Hcols) as (ax & Hax & Hakx).
  cbv zeta in Hay, Haky, Hax, Hakx.
  change (slice_bounds (nrows alpha) (start_src p).2 (end_src p).2
          = (ay, Z.to_nat ((end_dst p).2 - (start_dst p).2))) in Hay.
  change (slice_bounds (ncols alpha) (start_src p).1 (end_src p).1
          = (ax, Z.to_nat ((end_dst p).1 - (start_dst p).1))) in Hax.
  change ((start_dst p).2 < (end_dst p).2 -> ay = (start_dst p).2 - (ideal_start_dst p).2)
    in Haky.
  change ((start_dst p).1 < (end_dst p).1 -> ax = (start_dst p).1 - (ideal_start_dst p).1)
    in Hakx.
  set (isx := (ideal_start_dst p).1) in *. set (isy := (ideal_start_dst p).2) in *.
  unfold paste_into. cbv zeta. fold p. cbn [alpha_map].
  rewrite (getslice_eq result _ _ _ _ _ _ _ _ Hdy Hdx).
  rewrite (getslice_eq im_src _ _ _ _ _ _ _ _ Hsy Hsx).
  rewrite (getslice_eq alpha _ _ _ _ _ _ _ _ Hay Hax).
  match goal with |- context [nd_map2 mul_src ?a ?b] =>
    destruct (nd_map2_same_shape mul_src a b eq_refl eq_refl)
      as (t1 & Et1 & Ht1r & Ht1c & Ht1)
  end.
  rewrite Et1. cbn [mbind option_bind].
  match goal with |- context [nd_map2 mul_dst ?a ?b] =>
    destruct (nd_map2_same_shape mul_dst a b eq_refl eq_refl)
      as (t2 & Et2 & Ht2r & Ht2c & Ht2)
  end.
  rewrite Et2. cbn [mbind option_bind].
  cbn [nrows ncols nd_map] in Ht1r, Ht1c, Ht2r, Ht2c.
  destruct (nd_map2_same_shape add_val t1 t2
              (eq_trans Ht1r (eq_sym Ht2r)) (eq_trans Ht1c (eq_sym Ht2c)))
    as (v & Ev & Hvr & Hvc & Hv).
  rewrite Ev. cbn [mbind option_bind].
  destruct (setslice_same_shape store_dst result _ _ _ _ v _ _ _ _ Hdy Hdx
              (eq_trans Hvr Ht1r) (eq_trans Hvc Ht1c))
    as (r & Er & Hrr & Hrc & Hr).
  exists r. split; [exact Er|]. split; [exact Hrr|]. split; [exact Hrc|].
  intros y x. rewrite Hr. unfold in_region.
  rewrite !Z2Nat.id by lia.
  replace ((start_dst p).2 + ((end_dst p).2 - (start_dst p).2)) with ((end_dst p).2) by lia.
  replace ((start_dst p).1 + ((end_dst p).1 - (start_dst p).1)) with ((end_dst p).1) by lia.
  destruct ((start_dst p).2 <=? y) eqn:E1, (y <? (end_dst p).2) eqn:E2,
           ((start_dst p).1 <=? x) eqn:E3, (x <? (end_dst p).1) eqn:E4;
    cbn [andb]; try reflexivity.
  assert (Hin : in_bounds t1 (y - (start_dst p).2) (x - (start_dst p).1))
    by (unfold in_bounds; rewrite Ht1r, Ht1c; lia).
  rewrite Hv by exact Hin.
  rewrite Ht1 by (unfold in_bounds in *; cbn [nrows ncols]; lia).
  rewrite Ht2 by (unfold in_bounds in *; cbn [nrows ncols nd_map]; lia).
  cbn [item nd_map]. rewrite Hkx, Hky, Hakx, Haky by lia. unfold blend.
  replace ((start_dst p).2 - isy + (y - (start_dst p).2)) with (y - isy) by lia.
  replace ((start_dst p).1 - isx + (x - (start_dst p).1)) with (x - isx) by lia.
  replace ((start_dst p).2 + (y - (start_dst p).2)) with y by lia.
  replace ((start_dst p).1 + (x - (start_dst p).1)) with x by lia.
  reflexivity.
Qed.

(** X8: an alpha map with more rows or columns than the source raises
    nothing: [paste_over] blends with its top-left part, the alpha pixel
    of a destination pixel being the one at the pixel's offset in the
    ideal rectangle. *)
Theorem paste_over_oversized_alpha `{BlendOps A P D V} (im_src : ndarray P)
  (im_dst : loc) (alpha : ndarray A) (center : Q * Q) (inplace : bool)
  (h : gmap loc (ndarray D)) (dst : ndarray D) :
  h !! im_dst = Some dst ->
  (nrows im_src <= nrows alpha)%nat -> (ncols im_src <= ncols alpha)%nat ->
  let p := place_in im_src dst center in
  let sy := (ideal_start_dst p).2 in
  let sx := (ideal_start_dst p).1 in
  exists l h' r,
    paste_over im_src im_dst (Some alpha) center inplace h = Some (l, h') /\
    h' !! l = Some r /\
    nrows r = nrows dst /\ ncols r = ncols dst /\
    forall y x, in_bounds dst y x ->
      (sy <= y < (ideal_end_dst p).2 /\ sx <= x < (ideal_end_dst p).1 ->
       item r y x =
         store_dst (blend (item alpha (y - sy) (x - sx))
                          (item im_src (y - sy) (x - sx))
                          (item dst y x))) /\
      (~ (sy <= y < (ideal_end_dst p).2 /\ sx <= x < (ideal_end_dst p).1) ->
       item r y x = item dst y x).
Proof.
  intros Hdst Hrows Hcols p sy sx.
  destruct (paste_into_covering_alpha im_src dst alpha center Hrows Hcols)
    as (r & Er & Hrr & Hrc & Hr).
  destruct (paste_over_returns im_src im_dst (Some alpha) center inplace h dst r
              Hdst Er) as (l & h' & Hrun & Hl).
  exists l, h', r. repeat (split; [assumption|]).
  intros y x Hyx.
  pose proof (in_region_iff im_src dst center y x) as Hreg.
  cbv zeta in Hreg. fold p in Hr, Hreg. fold sy sx in Hr, Hreg.
  rewrite Hr. split.
  - intros Hrect.
    assert (Hin : in_region p y x = true) by (apply Hreg; tauto).
    now rewrite Hin.
  - intros Hrect. destruct (in_region p y x); [|reflexivity].
    exfalso. apply Hrect. now apply Hreg.
Qed.

Lemma paste_over_oversized_alpha_witness :
  returned_rows
    (paste_over src_2x2 1%positive
       (Some (of_lists 0 3 [[1; 0; 7]; [0; 1; 7]; [7; 7; 7]])) (2 # 1, 1 # 1)%Q false
       heap_3x4)
  = Some [[10; 1; 10; 10]; [10; 10; 4; 10]; [10; 10; 10; 10]] /\
  exists l h' r,
    paste_over src_2x2 1%positive
      (Some (of_lists 0 3 [[1; 0; 7]; [0; 1; 7]; [7; 7; 7]])) (2 # 1, 1 # 1)%Q false
      heap_3x4 = Some (l, h') /\
    h' !! l = Some r /\
    nrows r = nrows dst_3x4 /\ ncols r = ncols dst_3x4.
Proof.
  split; [vm_compute; reflexivity|].
  destruct (paste_over_oversized_alpha src_2x2 1%positive
              (of_lists 0 3 [[1; 0; 7]; [0; 1; 7]; [7; 7; 7]]) (2 # 1, 1 # 1)%Q false
              heap_3x4 dst_3x4)
    as (l & h' & r & Hrun & Hl & Hr & Hc & _).
  - reflexivity.
  - simpl. lia.
  - simpl. lia.
  - exists l, h', r. auto.
Defined.
